(** * A reverse-proxy router: path multiplexer and route reload

    Shallow embedding of the Go sources

    - [router.go], package [proxymux]: the [Mux] (backend table, route trie),
      [splitpath] and the longest-match search [findlongestmatch];
    - [router.go], package [main]: the [Router], [ReloadRoutes],
      [loadApplications] and [loadRoutes];
    - the [Iterator] and [Storage] interfaces (the storage backed by
      MongoDB talks to an external server and is not embedded; a storage
      with scripted answers stands in for it in the worked scenarios).

    Go strings are byte strings and are modelled by [string]; Go's [int] is a
    64-bit signed integer, modelled by [Z] with its wrap-around written out;
    Go maps are [gmap]s; a pointer to a [Mux] is an address into a heap of
    [Mux] values.  The reader/writer mutex of the [Mux] and the log output are
    not modelled: the development is about the sequential behaviour. *)

From stdpp Require Import base option list strings gmap.
From Stdlib Require Import ZArith Ascii.
From Equations Require Import Equations.

#[local] Open Scope Z_scope.
#[local] Open Scope nat_scope.

(** ** Go base types *)

(** An [error] value is represented by its message. *)
Definition error := string.

(** Go's [int] on a 64-bit platform: signed wrap-around of an unbounded
    integer. *)
Definition int_wrap (z : Z) : Z := ((z + 2 ^ 63) mod 2 ^ 64 - 2 ^ 63)%Z.

(** [strings.HasPrefix(s, prefix)]. *)
Fixpoint HasPrefix (s pre : string) {struct pre} : bool :=
  match pre, s with
  | EmptyString, _ => true
  | String _ _, EmptyString => false
  | String p pre', String c s' => Ascii.eqb c p && HasPrefix s' pre'
  end.

(** [strings.Split(s, sep)] for a separator of one byte, the only way the
    router calls it: the substrings between the separators, in order; a
    string without separator splits into itself. *)
Fixpoint Split (s : string) (sep : Ascii.ascii) : list string :=
  match s with
  | EmptyString => [EmptyString]
  | String c rest =>
      if Ascii.eqb c sep then EmptyString :: Split rest sep
      else match Split rest sep with
           | seg :: segs => String c seg :: segs
           | [] => [String c EmptyString]
           end
  end.

(** ** The path trie *)

Module trie.

#[local] Unset Elimination Schemes.

(** Modelled from the spec: the package [github.com/nickstenning/trie] is an
    external dependency whose source is not part of the repository.  A node
    is a map from segment string to child node plus an optional value slot;
    [Set] (here [Set_], since the name is reserved) walks the tree creating missing nodes and overwrites the value at
    the terminal node; [Get] returns the value at the terminal node, if any;
    keys of length 0 address the root. *)
Inductive Trie (V : Type) : Type :=
  Node { value : option V; children : gmap string (Trie V) }.

#[local] Set Elimination Schemes.

Arguments Node {V} _ _.
Arguments value {V} _.
Arguments children {V} _.

Definition NewTrie {V : Type} : Trie V := Node None ∅.

Fixpoint Get {V : Type} (t : Trie V) (key : list string) : option V :=
  match key with
  | [] => value t
  | seg :: rest =>
      match children t !! seg with
      | None => None
      | Some child => Get child rest
      end
  end.

Fixpoint Set_ {V : Type} (t : Trie V) (key : list string) (v : V) : Trie V :=
  match key with
  | [] => Node (Some v) (children t)
  | seg :: rest =>
      let child := default NewTrie (children t !! seg) in
      Node (value t) (<[seg := Set_ child rest v]> (children t))
  end.

End trie.

(** ** net/http and net/http/httputil, as far as the router uses them *)

(** A parsed [*url.URL] is represented by the string it was parsed from. *)
Record URL := { raw : string }.

(** [httputil.ReverseProxy]: the backend handler.  It is opaque to the
    router; the model keeps what the router sets. *)
Record ReverseProxy := {
  target : URL;
  MaxIdleConnsPerHost : Z
}.

(** [httputil.NewSingleHostReverseProxy(target)] followed by the assignment
    of a transport that keeps 20 idle connections per host. *)
Definition NewSingleHostReverseProxy (u : URL) : ReverseProxy :=
  {| target := u; MaxIdleConnsPerHost := 20 |}.

(** The part of [*http.Request] the router reads: [r.URL.Path]. *)
Record Request := { URL_Path : string }.

(** What a handler does with the response writer: reply with an error page
    ([http.Error]) or hand the request to a backend proxy. *)
Inductive Response :=
  | Error (msg : string) (code : Z)
  | ProxyServeHTTP (proxy : ReverseProxy) (r : Request).

Definition StatusNotFound : Z := 404.
Definition StatusServiceUnavailable : Z := 503.

(** [http.NotFound(w, r)]. *)
Definition NotFound (r : Request) : Response :=
  Error "404 page not found" StatusNotFound.

(** The status code the router itself decides on, if it does. *)
Definition status (resp : Response) : option Z :=
  match resp with
  | Error _ code => Some code
  | ProxyServeHTTP _ _ => None
  end.

(** ** Package proxymux *)

Module proxymux.

Record muxEntry := {
  prefix : bool;
  backendId : Z
}.

(** The zero value [muxEntry{}]. *)
Definition muxEntry_zero : muxEntry := {| prefix := false; backendId := 0 |}.

(** The trie stores [interface{}] values; [findlongestmatch] downcasts them
    with [val.(muxEntry)].  A value is a [muxEntry] or something else. *)
Inductive iface :=
  | IsMuxEntry (ent : muxEntry)
  | NotMuxEntry (repr : string).

Record Mux := {
  nextBackendId : Z;
  backends : gmap Z ReverseProxy;
  trie : trie.Trie iface
}.

Definition NewMux : Mux :=
  {| nextBackendId := 0; backends := ∅; trie := trie.NewTrie |}.

Definition AddBackend (mux : Mux) (target : URL) : Mux * Z :=
  let backendId := nextBackendId mux in
  let proxy := NewSingleHostReverseProxy target in
  ({| nextBackendId := int_wrap (nextBackendId mux + 1);
      backends := <[backendId := proxy]> (backends mux);
      trie := trie mux |},
   backendId).

Definition GetBackend (mux : Mux) (backendId : Z) : option ReverseProxy :=
  match backends mux !! backendId with
  | None => None
  | Some b => Some b
  end.

(** The loop [for strings.HasPrefix(path, "/") { path = path[1:] }]. *)
Fixpoint strip_leading_slashes (path : string) : string :=
  match path with
  | EmptyString => path
  | String _ rest =>
      if HasPrefix path "/" then strip_leading_slashes rest else path
  end.

Definition splitpath (path : string) : list string :=
  let path := strip_leading_slashes path in
  if String.eqb path "" then [] else Split path "/"%char.

Definition Register (mux : Mux) (path : string) (prefix : bool) (backendId : Z)
  : Mux :=
  {| nextBackendId := nextBackendId mux;
     backends := backends mux;
     trie := trie.Set_ (trie mux) (splitpath path)
               (IsMuxEntry {| prefix := prefix; backendId := backendId |}) |}.

(** How one iteration of the loop of [findlongestmatch] ends. *)
Inductive flow :=
  | Continue (copypath : list string)
  | Break
  | Return (ent : muxEntry).

(** [copypath[:len(copypath)-1]]. *)
Definition chop (copypath : list string) : list string :=
  take (length copypath - 1) copypath.

(** The body of the loop, for the current [copypath]. *)
Definition loop_body (t : trie.Trie iface) (origpath copypath : list string)
  : flow :=
  match trie.Get t copypath with
  | None =>
      if 0 <? length copypath then Continue (chop copypath) else Break
  | Some val =>
      match val with
      | NotMuxEntry _ => Break
      | IsMuxEntry ent =>
          if length copypath =? length origpath then Return ent
          else if prefix ent then Return ent
          else if 0 <? length copypath then Continue (chop copypath)
          else Break
      end
  end.

(** The loop guard [len(copypath) >= 0]. *)
Definition loop_guard (copypath : list string) : bool :=
  0 <=? length copypath.

(** One iteration: the guard, then the body.  A false guard leaves the loop
    as [break] does. *)
Definition iteration (t : trie.Trie iface) (origpath copypath : list string)
  : flow :=
  if loop_guard copypath then loop_body t origpath copypath else Break.

Definition inspect {A : Type} (a : A) : {b : A | a = b} := exist _ a eq_refl.

(** The [for] loop, and the [return muxEntry{}, false] that follows it. *)
Equations? for_loop (t : trie.Trie iface) (origpath copypath : list string)
  : muxEntry * bool by wf (length copypath) lt :=
  for_loop t origpath copypath with inspect (iteration t origpath copypath) := {
    | exist _ (Continue copypath') Hcont => for_loop t origpath copypath'
    | exist _ Break _ => (muxEntry_zero, false)
    | exist _ (Return ent) _ => (ent, true) }.
Proof.
  (* a [continue] is only reached with [len(copypath) > 0], and chops the
     last segment off *)
  revert Hcont. unfold iteration, loop_body, chop.
  destruct (loop_guard copypath); [|done].
  destruct (trie.Get t copypath) as [[ent|?]|]; [| done |].
  - destruct (length copypath =? length origpath); [done|].
    destruct (prefix ent); [done|].
    destruct (0 <? length copypath) eqn:Hlen; [|done].
    intros [= <-]. apply Nat.ltb_lt in Hlen. rewrite length_take. lia.
  - destruct (0 <? length copypath) eqn:Hlen; [|done].
    intros [= <-]. apply Nat.ltb_lt in Hlen. rewrite length_take. lia.
Qed.

Definition findlongestmatch (t : trie.Trie iface) (path : string)
  : muxEntry * bool :=
  let origpath := splitpath path in
  let copypath := origpath in
  for_loop t origpath copypath.

Definition Lookup (mux : Mux) (path : string) : Z * bool :=
  let '(entry, ok) := findlongestmatch (trie mux) path in
  (backendId entry, ok).

Definition ServeHTTP (mux : Mux) (r : Request) : Response :=
  let '(id, ok) := Lookup mux (URL_Path r) in
  if negb ok then NotFound r
  else
    match GetBackend mux id with
    | None => NotFound r
    | Some proxy => ProxyServeHTTP proxy r
    end.

End proxymux.

(** ** Package triemux, as the router sees it *)

(** [http.Handler]: the only handlers the router builds are reverse
    proxies. *)
Definition Handler := ReverseProxy.

(** The router imports its multiplexer as [triemux] and uses three
    operations of it: [triemux.NewMux()], [mux.Handle(path, prefix, handler)]
    and [mux.ServeHTTP(w, r)].  The router's code is embedded over any
    multiplexer with these operations. *)
Class TrieMux (M : Type) := {
  NewMux : M;
  Handle : M → string → bool → Handler → M;
  MuxServeHTTP : M → Request → Response
}.

(** Modelled from the spec: the method [Handle] is not among the sources of
    the multiplexer, which registers routes for backend ids ([AddBackend],
    [Register]).  Following the reload protocol of the spec (a backend
    handler is registered in the new Mux under an id, and the route is
    registered with its prefix flag), [Handle] stores the handler in the
    backend table under the next id and registers the route for that id. *)
Definition proxymux_Handle (mux : proxymux.Mux) (path : string)
  (prefix : bool) (handler : Handler) : proxymux.Mux :=
  let backendId := proxymux.nextBackendId mux in
  proxymux.Register
    {| proxymux.nextBackendId := int_wrap (backendId + 1);
       proxymux.backends := <[backendId := handler]> (proxymux.backends mux);
       proxymux.trie := proxymux.trie mux |}
    path prefix backendId.

#[export] Instance proxymux_TrieMux : TrieMux proxymux.Mux := {
  NewMux := proxymux.NewMux;
  Handle := proxymux_Handle;
  MuxServeHTTP := proxymux.ServeHTTP
}.

(** ** Package main: storage interfaces *)

Record Application := {
  ApplicationId : string;
  BackendURL : string
}.

Record Route := {
  IncomingPath : string;
  Route_ApplicationId : string;
  RouteType : string
}.

(** The [Iterator] interface.  A drained iterator is what it yields: the
    records [Next] binds, in order, until it returns false, and the error
    [Err] reports afterwards ([None] is [nil]). *)
Record Iterator (A : Type) := {
  pending : list A;
  failure : option error
}.
Arguments pending {A} _.
Arguments failure {A} _.

Definition Next {A : Type} (iter : Iterator A) : option A * Iterator A :=
  match pending iter with
  | [] => (None, iter)
  | result :: rest =>
      (Some result, {| pending := rest; failure := failure iter |})
  end.

Definition Err {A : Type} (iter : Iterator A) : option error := failure iter.

(** The loop [for iter.Next(&x) { body }] over a state [St]: [Next] is
    called until it returns false, so the body runs on every pending record
    in order; the loop leaves the state and the drained iterator. *)
Definition for_Next {A St : Type} (iter : Iterator A) (body : St → A → St)
  (s : St) : St * Iterator A :=
  (foldl body s (pending iter), {| pending := []; failure := failure iter |}).

(** The [Storage] interface over a connection state [S].  A method that
    returns [(Iterator, error)] returns one or the other. *)
Class Storage (S : Type) := {
  Applications : S → Iterator Application + error;
  Routes : S → Iterator Route + error;
  Open : S → S * option error;
  Close : S → S
}.

(** A storage whose answers are fixed in advance, with a count of the
    connections it holds open. *)
Record ScriptedStorage := {
  open_error : option error;
  applications : Iterator Application + error;
  routes : Iterator Route + error;
  connections : Z
}.

#[export] Instance ScriptedStorage_Storage : Storage ScriptedStorage := {
  Applications stor := applications stor;
  Routes stor := routes stor;
  Open stor :=
    match open_error stor with
    | Some err => (stor, Some err)
    | None =>
        ({| open_error := open_error stor;
            applications := applications stor;
            routes := routes stor;
            connections := connections stor + 1 |}, None)
    end;
  Close stor :=
    {| open_error := open_error stor;
       applications := applications stor;
       routes := routes stor;
       connections := connections stor - 1 |}
}.

(** ** Package main: the router *)

Section router.

Context {M S : Type} `{!TrieMux M} `{!Storage S}.

(** [url.Parse] belongs to Go's standard library; what the router needs of
    it is which strings it rejects, and with which error. *)
Variable parse_error : string → option error.

Definition Parse (rawurl : string) : URL + error :=
  match parse_error rawurl with
  | Some err => inr err
  | None => inl {| raw := rawurl |}
  end.

(** The router holds a pointer to its multiplexer: an address into the heap
    of multiplexers. *)
Record Router := {
  mux : nat;
  stor : S
}.

(** What a method of [*Router] runs on: the heap and the router itself. *)
Record World := {
  heap : list M;
  rt : Router
}.

(** Go code that may panic: a state transformer that ends with a value or
    with the value of the panic. *)
Definition Go (A : Type) : Type := World → World * (A + error).

Definition ret {A : Type} (a : A) : Go A := λ w, (w, inl a).

Definition bind {A B : Type} (m : Go A) (k : A → Go B) : Go B :=
  λ w, match m w with
       | (w', inl a) => k a w'
       | (w', inr r) => (w', inr r)
       end.

Definition panic {A : Type} (r : error) : Go A := λ w, (w, inr r).

(** [defer d()] before [body]: [d] runs when [body] returns and when it
    panics, and the panic goes on after it. *)
Definition defer {A : Type} (d : World → World) (body : Go A) : Go A :=
  λ w, match body w with
       | (w', res) => (d w', res)
       end.

(** [defer func() { if r := recover(); r != nil { handler(r) } }()] before
    [body], in a function without results: after a panic the handler runs
    and the function returns normally. *)
Definition defer_recover (handler : error → World → World) (body : Go unit)
  : Go unit :=
  λ w, match body w with
       | (w', inl tt) => (w', inl tt)
       | (w', inr r) => (handler r w', inl tt)
       end.

#[local] Instance Go_ret : MRet Go := @ret.
#[local] Instance Go_bind : MBind Go := λ A B k m, bind m k.

Definition get_mux : Go nat := λ w, (w, inl (mux (rt w))).
Definition get_stor : Go S := λ w, (w, inl (stor (rt w))).

(** [rt.mux = m]. *)
Definition set_mux (m : nat) (w : World) : World :=
  {| heap := heap w; rt := {| mux := m; stor := stor (rt w) |} |}.

Definition assign_mux (m : nat) : Go unit := λ w, (set_mux m w, inl tt).

Definition set_stor (s : S) (w : World) : World :=
  {| heap := heap w; rt := {| mux := mux (rt w); stor := s |} |}.

(** [triemux.NewMux()]: a new multiplexer at a fresh address. *)
Definition new_Mux : Go nat :=
  λ w, ({| heap := heap w ++ [NewMux]; rt := rt w |}, inl (length (heap w))).

(** [rt.stor.Open()]. *)
Definition stor_Open : Go (option error) :=
  λ w, let '(s, err) := Open (stor (rt w)) in (set_stor s w, inl err).

(** [rt.stor.Close()]. *)
Definition stor_Close (w : World) : World :=
  set_stor (Close (stor (rt w))) w.

(** The body of the loop of [loadApplications]. *)
Definition loadApplications_body (apps : gmap string Handler)
  (app : Application) : gmap string Handler :=
  match Parse (BackendURL app) with
  | inr err => apps
  | inl backendUrl =>
      let proxy := NewSingleHostReverseProxy backendUrl in
      <[ApplicationId app := proxy]> apps
  end.

Definition loadApplications (stor : S) : Go (gmap string Handler) :=
  let apps : gmap string Handler := ∅ in
  match Applications stor with
  | inr err => panic err
  | inl iter =>
      let '(apps, iter) := for_Next iter loadApplications_body apps in
      match Err iter with
      | Some err => panic err
      | None => ret apps
      end
  end.

(** The body of the loop of [loadRoutes]: the heap after an iteration. *)
Definition loadRoutes_body (mux : nat) (apps : gmap string Handler)
  (h : list M) (route : Route) : list M :=
  match apps !! Route_ApplicationId route with
  | None => h
  | Some handler =>
      let prefix := String.eqb (RouteType route) "prefix" in
      alter (λ m, Handle m (IncomingPath route) prefix handler) mux h
  end.

Definition loadRoutes (stor : S) (mux : nat) (apps : gmap string Handler)
  : Go unit :=
  match Routes stor with
  | inr err => panic err
  | inl iter =>
      λ w,
        let '(h, iter) := for_Next iter (loadRoutes_body mux apps) (heap w) in
        let w' := {| heap := h; rt := rt w |} in
        match Err iter with
        | Some err => panic err w'
        | None => ret tt w'
        end
  end.

Definition NewRouter (h : list M) (stor : S) : World :=
  {| heap := h ++ [NewMux];
     rt := {| mux := length h; stor := stor |} |}.

Definition ServeHTTP (w : World) (r : Request) : option Response :=
  m ← heap w !! mux (rt w); Some (MuxServeHTTP m r).

Definition ReloadRoutes : Go unit :=
  oldmux ← get_mux;
  defer_recover (λ r, set_mux oldmux) (
    err ← stor_Open;
    match err with
    | Some err => panic err
    | None =>
        defer stor_Close (
          newmux ← new_Mux;
          stor ← get_stor;
          apps ← loadApplications stor;
          loadRoutes stor newmux apps;;
          assign_mux newmux : Go unit)
    end : Go unit).

(** *** Notions used to state the properties of a reload *)

(** The arguments of a call [mux.Handle(path, prefix, handler)]. *)
Definition Handle_call (m : M) (call : string * bool * Handler) : M :=
  let '(path, prefix, handler) := call in Handle m path prefix handler.

(** The calls of [Handle] that correspond to the routes whose application
    has a handler in [apps], in the order of the routes. *)
Definition Handle_calls (apps : gmap string Handler) (routes : list Route)
  : list (string * bool * Handler) :=
  omap (λ route,
          handler ← apps !! Route_ApplicationId route;
          Some (IncomingPath route,
                String.eqb (RouteType route) "prefix", handler))
       routes.

(** The terminal errors of a reload on the storage [stor]: [Open] fails, or
    [Applications] or [Routes] fails on the opened storage, or one of their
    iterators reports an error once drained. *)
Definition terminal_error (stor : S) : Prop :=
  (Open stor).2 ≠ None ∨
  (∃ err, Applications (Open stor).1 = inr err) ∨
  (∃ iter err, Applications (Open stor).1 = inl iter ∧ Err iter = Some err) ∨
  (∃ err, Routes (Open stor).1 = inr err) ∨
  (∃ iter err, Routes (Open stor).1 = inl iter ∧ Err iter = Some err).

End router.

(** ** Package main: the states a reload goes through *)

Section router_states.

Context {M S : Type} `{!TrieMux M} `{!Storage S}.
Variable parse_error : string → option error.

(** Go code together with the states it goes through: the worlds left by
    each of its statements, in order, then its final world and its value or
    panic. *)
Definition GoT (A : Type) : Type :=
  World (M:=M) (S:=S) →
  list (World (M:=M) (S:=S)) * (World (M:=M) (S:=S) * (A + error)).

(** One statement: the world it leaves is recorded. *)
Definition stmt {A : Type} (m : Go A) : GoT A := λ w, ([(m w).1], m w).

Definition bindT {A B : Type} (m : GoT A) (k : A → GoT B) : GoT B :=
  λ w, match m w with
       | (states, (w', inl a)) =>
           (states ++ (k a w').1, (k a w').2)
       | (states, (w', inr r)) => (states, (w', inr r))
       end.

Definition panicT {A : Type} (r : error) : GoT A := λ w, ([], (w, inr r)).

(** [defer d()]: the deferred call is one more statement, after the body
    has returned or panicked. *)
Definition deferT {A : Type} (d : World → World) (body : GoT A) : GoT A :=
  λ w, match body w with
       | (states, (w', res)) => (states ++ [d w'], (d w', res))
       end.

(** The deferred function that recovers: its handler is one more statement,
    and it runs after a panic only. *)
Definition defer_recoverT (handler : error → World → World)
  (body : GoT unit) : GoT unit :=
  λ w, match body w with
       | (states, (w', inl tt)) => (states, (w', inl tt))
       | (states, (w', inr r)) =>
           (states ++ [handler r w'], (handler r w', inl tt))
       end.

(** The states after each iteration of a loop [for iter.Next(&x) { body }]
    from the state [s]. *)
Fixpoint loop_states {A St : Type} (body : St → A → St) (s : St)
  (records : list A) : list St :=
  match records with
  | [] => []
  | x :: rest => body s x :: loop_states body (body s x) rest
  end.

(** [loadRoutes], with the world after each iteration of its loop. *)
Definition loadRoutes_states (stor : S) (mux : nat)
  (apps : gmap string Handler) : GoT unit :=
  match Routes stor with
  | inr err => panicT err
  | inl iter =>
      λ w,
        let '(h, iter') := for_Next iter (loadRoutes_body mux apps) (heap w) in
        let w' := {| heap := h; rt := rt w |} in
        ((λ h', {| heap := h'; rt := rt w |})
           <$> loop_states (loadRoutes_body mux apps) (heap w) (pending iter),
         match Err iter' with
         | Some err => (w', inr err)
         | None => (w', inl tt)
         end)
  end.

(** [ReloadRoutes], statement by statement. *)
Definition ReloadRoutes_states : GoT unit :=
  bindT (stmt get_mux) (λ oldmux,
  defer_recoverT (λ r, set_mux oldmux) (
    bindT (stmt stor_Open) (λ err,
    match err with
    | Some err => panicT err
    | None =>
        deferT stor_Close (
          bindT (stmt new_Mux) (λ newmux,
          bindT (stmt get_stor) (λ stor,
          bindT (stmt (loadApplications parse_error stor)) (λ apps,
          bindT (loadRoutes_states stor newmux apps) (λ _,
          stmt (assign_mux newmux))))))
    end))).

End router_states.

(** ** Storages and parsers of the worked scenarios *)

(** A stand-in for [url.Parse] in the worked scenarios, with one of its
    failures: a raw URL that starts with a colon has no scheme. *)
Definition missing_scheme (rawurl : string) : option error :=
  if HasPrefix rawurl ":" then Some "missing protocol scheme" else None.

Definition stream {A : Type} (records : list A) : Iterator A + error :=
  inl {| pending := records; failure := None |}.

(** Scenario S5: the first application has a malformed backend URL. *)
Definition storage_S5 : ScriptedStorage :=
  {| open_error := None;
     applications :=
       stream [ {| ApplicationId := "A"; BackendURL := "://bad" |};
                {| ApplicationId := "B"; BackendURL := "http://b" |} ];
     routes :=
       stream [ {| IncomingPath := "/x"; Route_ApplicationId := "A";
                   RouteType := "exact" |};
                {| IncomingPath := "/y"; Route_ApplicationId := "B";
                   RouteType := "exact" |} ];
     connections := 0 |}.

(** Scenario S6, first the routes of S2, then a routes iterator that fails
    after it has yielded a route. *)
Definition storage_S2 : ScriptedStorage :=
  {| open_error := None;
     applications :=
       stream [ {| ApplicationId := "A"; BackendURL := "http://a" |};
                {| ApplicationId := "B"; BackendURL := "http://b" |} ];
     routes :=
       stream [ {| IncomingPath := "/a"; Route_ApplicationId := "A";
                   RouteType := "prefix" |};
                {| IncomingPath := "/a/b"; Route_ApplicationId := "B";
                   RouteType := "prefix" |} ];
     connections := 0 |}.

Definition storage_S6 : ScriptedStorage :=
  {| open_error := None;
     applications := applications storage_S2;
     routes :=
       inl {| pending := [ {| IncomingPath := "/z"; Route_ApplicationId := "A";
                              RouteType := "exact" |} ];
              failure := Some "cursor closed" |};
     connections := 0 |}.

(** A stream with one dangling route among two valid ones. *)
Definition storage_dangling : ScriptedStorage :=
  {| open_error := None;
     applications := applications storage_S2;
     routes :=
       stream [ {| IncomingPath := "/a"; Route_ApplicationId := "A";
                   RouteType := "prefix" |};
                {| IncomingPath := "/c"; Route_ApplicationId := "C";
                   RouteType := "exact" |};
                {| IncomingPath := "/b"; Route_ApplicationId := "B";
                   RouteType := "exact" |} ];
     connections := 0 |}.

(** The trie of scenario S2: prefix routes at [/a] and [/a/b]. *)
Definition mux_S2 : proxymux.Mux :=
  proxymux.Register (proxymux.Register proxymux.NewMux "/a" true 1) "/a/b" true 2.

(** A router on an empty heap, before any reload. *)
Definition world_new (stor : ScriptedStorage)
  : World (M:=proxymux.Mux) (S:=ScriptedStorage) :=
  NewRouter [] stor.

Definition world_S5 := (ReloadRoutes missing_scheme (world_new storage_S5)).1.

Definition world_S2 := (ReloadRoutes missing_scheme (world_new storage_S2)).1.
Definition world_S6 :=
  (ReloadRoutes missing_scheme (set_stor storage_S6 world_S2)).1.

(** ** Notions used to state the properties of the search *)

(** An entry the search passes over on its way down: nothing is stored at
    the first [n] segments, or an entry that is not a prefix route and is
    not at the full path. *)
Definition passed_over (t : trie.Trie proxymux.iface)
  (origpath : list string) (n : nat) : Prop :=
  trie.Get t (take n origpath) = None ∨
  ∃ ent, trie.Get t (take n origpath) = Some (proxymux.IsMuxEntry ent) ∧
         proxymux.prefix ent = false ∧ n ≠ length origpath.

(** The loop of [findlongestmatch] after [i] iterations: [Continue copypath]
    when it is about to run the next iteration on [copypath], and the way it
    was left otherwise. *)
Fixpoint after_iterations (t : trie.Trie proxymux.iface)
  (origpath : list string) (i : nat) : proxymux.flow :=
  match i with
  | 0 => proxymux.Continue origpath
  | S i' =>
      match after_iterations t origpath i' with
      | proxymux.Continue copypath => proxymux.iteration t origpath copypath
      | left_loop => left_loop
      end
  end.

(** What [findlongestmatch] returns once the loop is left. *)
Definition result_of (f : proxymux.flow) : option (proxymux.muxEntry * bool) :=
  match f with
  | proxymux.Continue _ => None
  | proxymux.Break => Some (proxymux.muxEntry_zero, false)
  | proxymux.Return ent => Some (ent, true)
  end.

(** ** Notions used to state further properties of the Mux *)

(** [strings.Join(segs, sep)]: the inverse of [Split] the properties of
    [splitpath] are stated with. *)
Fixpoint Join (segs : list string) (sep : string) : string :=
  match segs with
  | [] => ""
  | [seg] => seg
  | seg :: rest => seg +:+ sep +:+ Join rest sep
  end.

(** The byte [c] occurs in [s]. *)
Fixpoint contains_byte (s : string) (c : ascii) : bool :=
  match s with
  | EmptyString => false
  | String c' rest => Ascii.eqb c' c || contains_byte rest c
  end.

(** The path consists of slashes only (the empty path included). *)
Fixpoint only_slashes (path : string) : bool :=
  match path with
  | EmptyString => true
  | String c rest => Ascii.eqb c "/" && only_slashes rest
  end.

(** A call of one of the two methods that change a [Mux]. *)
Inductive MuxOp :=
  | OpAddBackend (target : URL)
  | OpRegister (path : string) (prefix : bool) (backendId : Z).

Definition apply_MuxOp (mux : proxymux.Mux) (op : MuxOp) : proxymux.Mux :=
  match op with
  | OpAddBackend target => (proxymux.AddBackend mux target).1
  | OpRegister path prefix backendId =>
      proxymux.Register mux path prefix backendId
  end.

(** The Mux after a sequence of calls on a new Mux. *)
Definition Mux_after (ops : list MuxOp) : proxymux.Mux :=
  foldl apply_MuxOp proxymux.NewMux ops.

(** [AddBackend] called for each target in turn: the Mux after the calls and
    the ids they returned. *)
Fixpoint AddBackends (mux : proxymux.Mux) (targets : list URL)
  : proxymux.Mux * list Z :=
  match targets with
  | [] => (mux, [])
  | target :: rest =>
      let '(mux', id) := proxymux.AddBackend mux target in
      let '(mux'', ids) := AddBackends mux' rest in
      (mux'', id :: ids)
  end.

(** The trie holds mux entries at the path of [R] and at its ancestors. *)
Definition mux_entries_above (t : trie.Trie proxymux.iface) (R : string)
  : Prop :=
  ∀ key repr, key `prefix_of` proxymux.splitpath R →
              trie.Get t key ≠ Some (proxymux.NotMuxEntry repr).

(** A stream with three records for one application. *)
Definition records_duplicates : list Application :=
  [ {| ApplicationId := "A"; BackendURL := "http://old" |};
    {| ApplicationId := "A"; BackendURL := "http://new" |};
    {| ApplicationId := "A"; BackendURL := "://bad" |} ].

Definition storage_duplicates : ScriptedStorage :=
  {| open_error := None;
     applications := stream records_duplicates;
     routes := stream [];
     connections := 1 |}.

(** ** Package main: the storage on MongoDB *)

Module mongo.

Section mgo.

(** The driver [labix.org/v2/mgo] is an external package; the storage uses
    its sessions and databases through four operations: [mgo.Dial(url)],
    which gives a session or an error, [sess.SetMode(mgo.Monotonic, true)],
    [sess.DB(name)], and [db.C(collection).Find(nil).Iter()]. *)
Context {Session Database : Type}.
Variable Dial : string → Session + error.
Variable SetMode_Monotonic : Session → Session.
Variable DB : Session → string → Database.
Variable Find_Iter : ∀ A : Type, Database → string → Iterator A.

Record MongoStorage := {
  mongoUrl : string;
  mongoDbName : string;
  sess : option Session;
  db : option Database
}.

Definition NewMongoStorage (mongoUrl mongoDbName : string) : MongoStorage :=
  {| mongoUrl := mongoUrl; mongoDbName := mongoDbName;
     sess := None; db := None |}.

Definition Applications (m : MongoStorage) : Iterator Application + error :=
  match db m with
  | None => inr "Not connected to mongo"
  | Some d => inl (Find_Iter Application d "applications")
  end.

Definition Routes (m : MongoStorage) : Iterator Route + error :=
  match db m with
  | None => inr "Not connected to mongo"
  | Some d => inl (Find_Iter Route d "routes")
  end.

(** [m.sess, err = mgo.Dial(m.mongoUrl)] assigns the session before the
    error is looked at: with an error the session is nil. *)
Definition Open (m : MongoStorage) : MongoStorage * option error :=
  match Dial (mongoUrl m) with
  | inr err =>
      ({| mongoUrl := mongoUrl m; mongoDbName := mongoDbName m;
          sess := None; db := db m |}, Some err)
  | inl s =>
      let s := SetMode_Monotonic s in
      ({| mongoUrl := mongoUrl m; mongoDbName := mongoDbName m;
          sess := Some s; db := Some (DB s (mongoDbName m)) |}, None)
  end.

(** [Close] on a storage with a session; without one ([None]) the call
    [m.sess.Close()] is on a nil session, which is the driver's business. *)
Definition Close (m : MongoStorage) : option MongoStorage :=
  match sess m with
  | None => None
  | Some _ =>
      Some {| mongoUrl := mongoUrl m; mongoDbName := mongoDbName m;
              sess := None; db := None |}
  end.

End mgo.

End mongo.

(** A driver for the worked scenarios: a session is the URL it was dialed
    with, a database the pair of its session and its name, every collection
    is empty, and one server is down. *)
Definition Dial_example (url : string) : string + error :=
  if String.eqb url "mongodb://down" then inr "no reachable servers"
  else inl url.

Definition Find_Iter_example (A : Type) (d : string * string)
  (collection : string) : Iterator A :=
  {| pending := []; failure := None |}.

(** Two records for the application [A], the second with a malformed URL,
    and a route for [A]. *)
Definition storage_shared_id : ScriptedStorage :=
  {| open_error := None;
     applications :=
       stream [ {| ApplicationId := "A"; BackendURL := "http://a" |};
                {| ApplicationId := "A"; BackendURL := "://bad" |} ];
     routes :=
       stream [ {| IncomingPath := "/x"; Route_ApplicationId := "A";
                   RouteType := "exact" |} ];
     connections := 0 |}.

Definition world_shared_id :=
  (ReloadRoutes missing_scheme (world_new storage_shared_id)).1.

(** * Properties *)

(** ** The trie: reading after writing *)

Section trie_facts.

Context {V : Type}.
Implicit Types (t : trie.Trie V) (key : list string) (v : V).

Lemma Get_NewTrie key : trie.Get (@trie.NewTrie V) key = None.
Proof. destruct key; reflexivity. Qed.

Lemma Get_Set_eq t key v : trie.Get (trie.Set_ t key v) key = Some v.
Proof.
  revert t. induction key as [|seg rest IH]; intros t; simpl.
  - reflexivity.
  - rewrite lookup_insert_eq. apply IH.
Qed.

Lemma Get_Set_ne t key key' v :
  key ≠ key' → trie.Get (trie.Set_ t key v) key' = trie.Get t key'.
Proof.
  revert t key'. induction key as [|seg rest IH]; intros t key' Hne.
  - destruct key' as [|seg' rest']; [done|]. reflexivity.
  - destruct key' as [|seg' rest']; [reflexivity|]. simpl.
    destruct (decide (seg = seg')) as [<-|Hseg].
    + rewrite lookup_insert_eq, IH by congruence.
      destruct (trie.children t !! seg) as [child|]; simpl; [done|].
      apply Get_NewTrie.
    + by rewrite lookup_insert_ne.
Qed.

Lemma Get_Set t key key' v :
  trie.Get (trie.Set_ t key v) key' =
  if decide (key = key') then Some v else trie.Get t key'.
Proof.
  case_decide as Hk.
  - subst. apply Get_Set_eq.
  - by apply Get_Set_ne.
Qed.

End trie_facts.

(** ** Normalisation of paths *)

Lemma HasPrefix_slash (c : ascii) (rest : string) :
  HasPrefix (String c rest) "/" = bool_decide (c = "/"%char).
Proof.
  cbn [HasPrefix]. rewrite andb_true_r.
  destruct (Ascii.eqb_spec c "/"); by case_bool_decide.
Qed.

Lemma strip_leading_slashes_cons (c : ascii) (rest : string) :
  proxymux.strip_leading_slashes (String c rest) =
  if bool_decide (c = "/"%char) then proxymux.strip_leading_slashes rest
  else String c rest.
Proof.
  change (proxymux.strip_leading_slashes (String c rest))
    with (if HasPrefix (String c rest) "/"
          then proxymux.strip_leading_slashes rest else String c rest).
  by rewrite HasPrefix_slash.
Qed.

Lemma strip_leading_slashes_slash (path : string) :
  proxymux.strip_leading_slashes (String "/" path) =
  proxymux.strip_leading_slashes path.
Proof. by rewrite strip_leading_slashes_cons. Qed.

Lemma splitpath_slash (path : string) :
  proxymux.splitpath (String "/" path) = proxymux.splitpath path.
Proof.
  unfold proxymux.splitpath. by rewrite strip_leading_slashes_slash.
Qed.

Lemma strip_leading_slashes_idemp (path : string) :
  proxymux.strip_leading_slashes (proxymux.strip_leading_slashes path) =
  proxymux.strip_leading_slashes path.
Proof.
  induction path as [|c rest IH]; [reflexivity|].
  rewrite strip_leading_slashes_cons. case_bool_decide as Hc; [done|].
  rewrite strip_leading_slashes_cons. by rewrite bool_decide_eq_false_2.
Qed.

(** ** The loop of [findlongestmatch] *)

Section longest_match.

Implicit Types (t : trie.Trie proxymux.iface) (ent : proxymux.muxEntry).
Implicit Types (origpath copypath key : list string) (path : string).

(** A [continue] shortens [copypath]: the measure of the loop. *)
Lemma iteration_Continue_shorter t origpath copypath copypath' :
  proxymux.iteration t origpath copypath = proxymux.Continue copypath' →
  length copypath' < length copypath.
Proof.
  unfold proxymux.iteration, proxymux.loop_body, proxymux.chop.
  destruct (proxymux.loop_guard copypath); [|done].
  destruct (trie.Get t copypath) as [[ent|?]|]; [| done |].
  - destruct (length copypath =? length origpath); [done|].
    destruct (proxymux.prefix ent); [done|].
    destruct (0 <? length copypath) eqn:Hlen; [|done].
    intros [= <-]. apply Nat.ltb_lt in Hlen. rewrite length_take. lia.
  - destruct (0 <? length copypath) eqn:Hlen; [|done].
    intros [= <-]. apply Nat.ltb_lt in Hlen. rewrite length_take. lia.
Qed.

Lemma for_loop_clause t origpath copypath (f : proxymux.flow)
  (Hf : proxymux.iteration t origpath copypath = f) :
  proxymux.for_loop_unfold_clause_1 t origpath copypath (exist _ f Hf) =
  match f with
  | proxymux.Continue copypath' => proxymux.for_loop t origpath copypath'
  | proxymux.Break => (proxymux.muxEntry_zero, false)
  | proxymux.Return ent => (ent, true)
  end.
Proof. by destruct f. Qed.

(** The loop runs one iteration and goes on as the iteration says. *)
Lemma for_loop_unfold t origpath copypath :
  proxymux.for_loop t origpath copypath =
  match proxymux.iteration t origpath copypath with
  | proxymux.Continue copypath' => proxymux.for_loop t origpath copypath'
  | proxymux.Break => (proxymux.muxEntry_zero, false)
  | proxymux.Return ent => (ent, true)
  end.
Proof.
  simp for_loop. unfold proxymux.inspect. apply for_loop_clause.
Qed.

Lemma loop_guard_true copypath : proxymux.loop_guard copypath = true.
Proof. reflexivity. Qed.

Lemma iteration_loop_body t origpath copypath :
  proxymux.iteration t origpath copypath =
  proxymux.loop_body t origpath copypath.
Proof. reflexivity. Qed.

Lemma for_loop_step t origpath copypath :
  proxymux.for_loop t origpath copypath =
  match proxymux.loop_body t origpath copypath with
  | proxymux.Continue copypath' => proxymux.for_loop t origpath copypath'
  | proxymux.Break => (proxymux.muxEntry_zero, false)
  | proxymux.Return ent => (ent, true)
  end.
Proof. rewrite for_loop_unfold. reflexivity. Qed.

Lemma chop_take origpath n :
  n ≤ length origpath →
  proxymux.chop (take n origpath) = take (n - 1) origpath.
Proof.
  intros Hn. unfold proxymux.chop.
  rewrite length_take_le, take_take by done. f_equal. lia.
Qed.

Lemma prefix_of_take key origpath :
  key `prefix_of` origpath → key = take (length key) origpath.
Proof. intros [k ->]. by rewrite take_app_length. Qed.

Lemma for_loop_passed_over t origpath n :
  n ≤ length origpath → 0 < n → passed_over t origpath n →
  proxymux.for_loop t origpath (take n origpath) =
  proxymux.for_loop t origpath (take (n - 1) origpath).
Proof.
  intros Hn Hpos Hpass. rewrite for_loop_step.
  unfold proxymux.loop_body. rewrite chop_take, length_take_le by done.
  destruct Hpass as [-> | (ent & -> & -> & Hne)].
  - by rewrite (proj2 (Nat.ltb_lt 0 n)).
  - by rewrite (proj2 (Nat.eqb_neq _ _)), (proj2 (Nat.ltb_lt 0 n)).
Qed.

Lemma for_loop_descend t origpath m n :
  m ≤ n → n ≤ length origpath →
  (∀ j, m < j → j ≤ n → passed_over t origpath j) →
  proxymux.for_loop t origpath (take n origpath) =
  proxymux.for_loop t origpath (take m origpath).
Proof.
  intros Hmn. induction Hmn as [|n Hmn IH]; intros Hn Hpass; [done|].
  rewrite for_loop_passed_over by (try apply Hpass; lia).
  replace (S n - 1) with n by lia.
  apply IH; [lia|]. intros j ??. apply Hpass; lia.
Qed.

Lemma for_loop_accept t origpath n ent :
  n ≤ length origpath →
  trie.Get t (take n origpath) = Some (proxymux.IsMuxEntry ent) →
  proxymux.prefix ent = true ∨ n = length origpath →
  proxymux.for_loop t origpath (take n origpath) = (ent, true).
Proof.
  intros Hn Hget Hacc. rewrite for_loop_step.
  unfold proxymux.loop_body. rewrite Hget, length_take_le by done.
  destruct Hacc as [-> | ->].
  - by destruct (n =? length origpath).
  - by rewrite Nat.eqb_refl.
Qed.

Lemma for_loop_bottom t origpath :
  passed_over t origpath 0 →
  proxymux.for_loop t origpath (take 0 origpath) =
  (proxymux.muxEntry_zero, false).
Proof.
  intros Hpass. rewrite for_loop_step.
  unfold proxymux.loop_body. simpl.
  destruct Hpass as [Hget | (ent & Hget & Hpre & Hne)]; simpl in Hget;
    rewrite Hget; [done|].
  rewrite Hpre. destruct origpath; [done|]. reflexivity.
Qed.

(** A search that reports a miss returns the zero entry. *)
Lemma for_loop_miss t origpath copypath :
  (proxymux.for_loop t origpath copypath).2 = false →
  proxymux.for_loop t origpath copypath = (proxymux.muxEntry_zero, false).
Proof.
  remember (length copypath) as n eqn:Hlen. revert copypath Hlen.
  induction (lt_wf n) as [n _ IH]. intros copypath ->.
  rewrite for_loop_unfold.
  destruct (proxymux.iteration t origpath copypath) as [copypath'| |ent] eqn:Hit.
  - eapply IH; [|reflexivity].
    by eapply iteration_Continue_shorter.
  - done.
  - done.
Qed.

End longest_match.

(** ** Longest match: the claims about [findlongestmatch] *)

Section longest_match_claims.

Implicit Types (t : trie.Trie proxymux.iface) (ent : proxymux.muxEntry).
Implicit Types (mux : proxymux.Mux) (key : list string) (P R : string).

Lemma findlongestmatch_exact t P ent :
  trie.Get t (proxymux.splitpath P) = Some (proxymux.IsMuxEntry ent) →
  proxymux.findlongestmatch t P = (ent, true).
Proof.
  intros Hget. unfold proxymux.findlongestmatch.
  rewrite <- (take_ge (proxymux.splitpath P) (length (proxymux.splitpath P)))
    at 2 by done.
  apply for_loop_accept; [done| |by right].
  by rewrite take_ge.
Qed.

Lemma Lookup_Register_same mux P P' pre A :
  proxymux.splitpath P' = proxymux.splitpath P →
  proxymux.Lookup (proxymux.Register mux P pre A) P' = (A, true).
Proof.
  intros HP. unfold proxymux.Lookup.
  rewrite (findlongestmatch_exact _ _
             {| proxymux.prefix := pre; proxymux.backendId := A |}); [done|].
  simpl. rewrite HP. apply Get_Set_eq.
Qed.

(** C1 (longest prefix wins): let the trie hold mux entries at the ancestors
    of the request path [R] and nothing at [R] itself.  If [key] is an
    ancestor of [R] with a prefix route [ent], and no ancestor with a prefix
    route has more segments than [key], then the search returns [ent]. *)
Theorem longest_prefix_wins t R key ent :
  let S := proxymux.splitpath R in
  (∀ key' repr, key' `prefix_of` S →
     trie.Get t key' ≠ Some (proxymux.NotMuxEntry repr)) →
  trie.Get t S = None →
  key `prefix_of` S →
  trie.Get t key = Some (proxymux.IsMuxEntry ent) →
  proxymux.prefix ent = true →
  (∀ key' ent', key' `prefix_of` S →
     trie.Get t key' = Some (proxymux.IsMuxEntry ent') →
     proxymux.prefix ent' = true → length key' ≤ length key) →
  proxymux.findlongestmatch t R = (ent, true).
Proof.
  intros S Hmux Hnone Hkey Hget Hpre Hmax.
  unfold proxymux.findlongestmatch. fold S.
  pose proof (prefix_length _ _ Hkey) as Hlen.
  pose proof (prefix_of_take _ _ Hkey) as Htake.
  rewrite <- (take_ge S (length S)) at 2 by done.
  rewrite (for_loop_descend t S (length key) (length S)); [|done|done|].
  - apply for_loop_accept; [done| |by left]. by rewrite <- Htake.
  - intros j Hj1 Hj2. unfold passed_over.
    destruct (trie.Get t (take j S)) as [[ent'|repr]|] eqn:Hj; [|exfalso|by left].
    + right. exists ent'. split; [done|].
      assert (j ≠ length S) as Hne.
      { intros ->. rewrite take_ge in Hj by done. congruence. }
      split; [|done].
      destruct (proxymux.prefix ent') eqn:Hpre'; [exfalso|done].
      specialize (Hmax (take j S) ent' (prefix_take _ _) Hj Hpre').
      rewrite length_take_le in Hmax by done. lia.
    + by eapply (Hmux (take j S)); [apply prefix_take|].
Qed.

(** C2 (the entry at the path itself is returned): an entry stored at the
    segment sequence of [P] is what the search returns for [P], whatever its
    prefix flag; and when a prefix route for [P] is registered and an exact
    route for [P] after it, a lookup of [P] gives the backend of the exact
    route. *)
Theorem entry_at_path_is_returned t P :
  (∀ ent, trie.Get t (proxymux.splitpath P) = Some (proxymux.IsMuxEntry ent) →
          proxymux.findlongestmatch t P = (ent, true)) ∧
  (∀ mux A B,
     proxymux.Lookup
       (proxymux.Register (proxymux.Register mux P true B) P false A) P
     = (A, true)).
Proof.
  split.
  - intros ent. apply findlongestmatch_exact.
  - intros mux A B. by apply Lookup_Register_same.
Qed.

End longest_match_claims.

(** ** Worked instances of the search *)

Example S2_longest_prefix :
  proxymux.Lookup mux_S2 "/a/b/c" = (2%Z, true) ∧
  proxymux.Lookup mux_S2 "/a/x" = (1%Z, true) ∧
  proxymux.Lookup mux_S2 "/a" = (1%Z, true) ∧
  proxymux.Lookup mux_S2 "/a/bc" = (1%Z, true) ∧
  proxymux.Lookup mux_S2 "/b" = (0%Z, false).
Proof. vm_compute. done. Qed.

(** The keys that are ancestors of a path of three segments. *)
Lemma prefix_of_three (key : list string) (s1 s2 s3 : string) :
  key `prefix_of` [s1; s2; s3] →
  key = [] ∨ key = [s1] ∨ key = [s1; s2] ∨ key = [s1; s2; s3].
Proof.
  intros Hkey. pose proof (prefix_length _ _ Hkey) as Hlen.
  rewrite (prefix_of_take _ _ Hkey). simpl in Hlen.
  destruct (length key) as [|[|[|[|n]]]]; simpl; [tauto..|lia].
Qed.

Lemma longest_prefix_wins_witness :
  proxymux.findlongestmatch (proxymux.trie mux_S2) "/a/b/c" =
  ({| proxymux.prefix := true; proxymux.backendId := 2 |}, true).
Proof.
  apply (longest_prefix_wins (proxymux.trie mux_S2) "/a/b/c" ["a"; "b"]).
  - intros key' repr Hkey'.
    destruct (prefix_of_three _ _ _ _ Hkey') as [->|[->|[->| ->]]];
      vm_compute; discriminate.
  - vm_compute. reflexivity.
  - by exists ["c"].
  - vm_compute. reflexivity.
  - reflexivity.
  - intros key' ent' Hkey'.
    destruct (prefix_of_three _ _ _ _ Hkey') as [->|[->|[->| ->]]];
      vm_compute; intros; first [discriminate | lia].
Defined.

Lemma entry_at_path_is_returned_witness :
  proxymux.findlongestmatch
    (proxymux.trie (proxymux.Register proxymux.NewMux "/foo" false 7)) "foo" =
  ({| proxymux.prefix := false; proxymux.backendId := 7 |}, true).
Proof.
  apply (proj1 (entry_at_path_is_returned
                  (proxymux.trie (proxymux.Register proxymux.NewMux "/foo" false 7))
                  "foo")).
  vm_compute. reflexivity.
Defined.

(** ** Normalisation idempotence *)

(** C7: the spellings [/P], [P] and [///P] of a path have the same segment
    sequence, the root [/] and the empty path have the empty one, and so a
    route registered or a path looked up under any of the spellings is the
    same route and the same lookup. *)
Theorem spellings_normalize_alike (P : string) :
  proxymux.splitpath ("/" +:+ P) = proxymux.splitpath P ∧
  proxymux.splitpath ("///" +:+ P) = proxymux.splitpath P ∧
  proxymux.splitpath "/" = [] ∧ proxymux.splitpath "" = [] ∧
  (∀ mux pre id,
     proxymux.Register mux ("/" +:+ P) pre id = proxymux.Register mux P pre id ∧
     proxymux.Register mux ("///" +:+ P) pre id = proxymux.Register mux P pre id) ∧
  (∀ mux,
     proxymux.Lookup mux ("/" +:+ P) = proxymux.Lookup mux P ∧
     proxymux.Lookup mux ("///" +:+ P) = proxymux.Lookup mux P).
Proof.
  assert (proxymux.splitpath ("/" +:+ P) = proxymux.splitpath P) as H1
    by apply splitpath_slash.
  assert (proxymux.splitpath ("///" +:+ P) = proxymux.splitpath P) as H3.
  { change ("///" +:+ P) with (String "/" (String "/" (String "/" P))).
    by rewrite !splitpath_slash. }
  split_and!; try done.
  all: intros; unfold proxymux.Register, proxymux.Lookup,
         proxymux.findlongestmatch; by rewrite H1, H3.
Qed.

(** ** Exact routes and descendants *)

Lemma for_loop_ext (t t' : trie.Trie proxymux.iface) (origpath : list string)
  (n : nat) :
  n ≤ length origpath →
  (∀ j, j ≤ n →
     proxymux.loop_body t' origpath (take j origpath) =
     proxymux.loop_body t origpath (take j origpath)) →
  proxymux.for_loop t' origpath (take n origpath) =
  proxymux.for_loop t origpath (take n origpath).
Proof.
  induction n as [|n IH]; intros Hn Hbody.
  - rewrite (for_loop_step t), (for_loop_step t'), Hbody by done.
    destruct (proxymux.loop_body t origpath (take 0 origpath)) eqn:Hb; try done.
    apply (iteration_Continue_shorter t) in Hb. simpl in Hb. lia.
  - rewrite (for_loop_step t), (for_loop_step t'), Hbody by done.
    destruct (proxymux.loop_body t origpath (take (S n) origpath))
      as [copypath| |ent] eqn:Hb; try done.
    assert (copypath = take n origpath) as ->.
    { revert Hb. unfold proxymux.loop_body.
      rewrite chop_take by done. replace (S n - 1) with n by lia.
      repeat case_match; congruence. }
    apply IH; [lia|]. intros j Hj. apply Hbody. lia.
Qed.

(** The loop body on a key the search passes over. *)
Lemma loop_body_passed_over (t : trie.Trie proxymux.iface)
  (origpath : list string) (n : nat) :
  n ≤ length origpath → passed_over t origpath n →
  proxymux.loop_body t origpath (take n origpath) =
  if 0 <? n then proxymux.Continue (take (n - 1) origpath) else proxymux.Break.
Proof.
  intros Hn Hpass. unfold proxymux.loop_body.
  rewrite chop_take, length_take_le by done.
  destruct Hpass as [-> | (ent & -> & -> & Hne)]; [done|].
  by rewrite (proj2 (Nat.eqb_neq _ _)).
Qed.

(** C8, as the code has it (exact routes do not shadow descendants): let the
    request path [R] be a proper descendant of [P].  Registering an exact
    route at [P] does not change the lookup of [R], provided that what was
    stored at [P] before, if anything, was not a prefix route. *)
Theorem exact_route_keeps_descendants (mux : proxymux.Mux) (P R : string)
  (A : Z) :
  proxymux.splitpath P `prefix_of` proxymux.splitpath R →
  length (proxymux.splitpath P) < length (proxymux.splitpath R) →
  (trie.Get (proxymux.trie mux) (proxymux.splitpath P) = None ∨
   ∃ ent, trie.Get (proxymux.trie mux) (proxymux.splitpath P) =
            Some (proxymux.IsMuxEntry ent) ∧ proxymux.prefix ent = false) →
  proxymux.Lookup (proxymux.Register mux P false A) R = proxymux.Lookup mux R.
Proof.
  intros Hpre Hlen Hprior.
  unfold proxymux.Lookup, proxymux.findlongestmatch. simpl.
  set (Sp := proxymux.splitpath P) in *. set (Sr := proxymux.splitpath R) in *.
  set (v := proxymux.IsMuxEntry _).
  enough (proxymux.for_loop (trie.Set_ (proxymux.trie mux) Sp v) Sr Sr =
          proxymux.for_loop (proxymux.trie mux) Sr Sr) as -> by done.
  pose proof (prefix_of_take _ _ Hpre) as HSp.
  rewrite <- (take_ge Sr (length Sr)) at 2 4 by done.
  apply for_loop_ext; [done|]. intros j Hj.
  destruct (decide (j = length Sp)) as [->|Hne].
  - rewrite !loop_body_passed_over; [done|lia| |lia|].
    + unfold passed_over. rewrite <- HSp.
      destruct Hprior as [?|(ent & ? & ?)]; [by left|right].
      exists ent. split_and!; [done..|lia].
    + right. eexists. rewrite <- HSp, Get_Set_eq. split_and!; [done..|lia].
  - unfold proxymux.loop_body. rewrite Get_Set_ne; [done|].
    intros Heq. apply Hne. rewrite Heq, length_take_le; done.
Qed.

Lemma exact_route_keeps_descendants_witness :
  proxymux.Lookup
    (proxymux.Register
       (proxymux.Register proxymux.NewMux "/" true 1) "/foo" false 2)
    "/foo/bar" =
  proxymux.Lookup (proxymux.Register proxymux.NewMux "/" true 1) "/foo/bar".
Proof.
  apply exact_route_keeps_descendants.
  - by exists ["bar"].
  - vm_compute. lia.
  - left. vm_compute. reflexivity.
Defined.

(** C8 as stated fails: an exact route registered at [/foo] replaces the
    prefix route that served [/foo/bar]. *)
Lemma exact_route_changes_descendant :
  ¬ (∀ (mux : proxymux.Mux) (P R : string) (A : Z),
       proxymux.splitpath P `prefix_of` proxymux.splitpath R →
       length (proxymux.splitpath P) < length (proxymux.splitpath R) →
       proxymux.Lookup (proxymux.Register mux P false A) R =
       proxymux.Lookup mux R).
Proof.
  intros Hclaim.
  specialize (Hclaim (proxymux.Register proxymux.NewMux "/foo" true 1)
                "/foo" "/foo/bar" 2%Z).
  assert (proxymux.Lookup
            (proxymux.Register
               (proxymux.Register proxymux.NewMux "/foo" true 1) "/foo" false 2)
            "/foo/bar" = (0%Z, false)) as Hafter by (vm_compute; reflexivity).
  assert (proxymux.Lookup (proxymux.Register proxymux.NewMux "/foo" true 1)
            "/foo/bar" = (1%Z, true)) as Hbefore by (vm_compute; reflexivity).
  rewrite Hafter, Hbefore in Hclaim.
  assert ((0%Z, false) = (1%Z, true)) as Habsurd; [|discriminate Habsurd].
  apply Hclaim.
  - by exists ["bar"].
  - vm_compute. lia.
Qed.

(** ** Termination of the search *)

Lemma loop_body_Continue (t : trie.Trie proxymux.iface)
  (origpath copypath copypath' : list string) :
  proxymux.loop_body t origpath copypath = proxymux.Continue copypath' →
  copypath' = proxymux.chop copypath ∧ 0 < length copypath.
Proof.
  unfold proxymux.loop_body.
  destruct (trie.Get t copypath) as [[ent|repr]|]; [|done|].
  - destruct (length copypath =? length origpath); [done|].
    destruct (proxymux.prefix ent); [done|].
    destruct (0 <? length copypath) eqn:Hlen; [|done].
    intros [= <-]. by apply Nat.ltb_lt in Hlen.
  - destruct (0 <? length copypath) eqn:Hlen; [|done].
    intros [= <-]. by apply Nat.ltb_lt in Hlen.
Qed.

Lemma loop_body_Break (t : trie.Trie proxymux.iface)
  (origpath copypath : list string) :
  proxymux.loop_body t origpath copypath = proxymux.Break →
  copypath = [] ∨
  ∃ repr, trie.Get t copypath = Some (proxymux.NotMuxEntry repr).
Proof.
  unfold proxymux.loop_body.
  destruct (trie.Get t copypath) as [[ent|repr]|]; [|by eauto|].
  - destruct (length copypath =? length origpath); [done|].
    destruct (proxymux.prefix ent); [done|].
    destruct (0 <? length copypath) eqn:Hlen; [done|].
    intros _. left. apply nil_length_inv. apply Nat.ltb_ge in Hlen. lia.
  - destruct (0 <? length copypath) eqn:Hlen; [done|].
    intros _. left. apply nil_length_inv. apply Nat.ltb_ge in Hlen. lia.
Qed.

(** The run of the loop from the prefix of [k] segments on. *)
Lemma after_iterations_from (t : trie.Trie proxymux.iface)
  (origpath : list string) (k : nat) :
  k ≤ length origpath →
  after_iterations t origpath (length origpath - k) =
    proxymux.Continue (take k origpath) →
  ∃ n, length origpath - k ≤ n ∧ n ≤ length origpath ∧
    (∀ i, length origpath - k ≤ i → i ≤ n →
       after_iterations t origpath i =
       proxymux.Continue (take (length origpath - i) origpath)) ∧
    result_of (after_iterations t origpath (S n)) =
      Some (proxymux.for_loop t origpath (take k origpath)) ∧
    (after_iterations t origpath (S n) = proxymux.Break →
       n = length origpath ∨
       ∃ repr, trie.Get t (take (length origpath - n) origpath) =
                 Some (proxymux.NotMuxEntry repr)).
Proof.
  induction k as [|k IH]; intros Hk Hstart.
  - exists (length origpath - 0).
    assert (∀ i, length origpath - 0 ≤ i → i ≤ length origpath - 0 →
              after_iterations t origpath i =
              proxymux.Continue (take (length origpath - i) origpath)) as Hrun.
    { intros i ??. replace i with (length origpath - 0) by lia.
      rewrite Hstart. f_equal. f_equal. lia. }
    split_and!; [lia|lia|done| |intros _; left; lia].
    simpl. rewrite Hstart, for_loop_step, iteration_loop_body.
    destruct (proxymux.loop_body t origpath (take 0 origpath)) eqn:Hb; try done.
    apply loop_body_Continue in Hb as [_ Hb]. simpl in Hb. lia.
  - destruct (proxymux.loop_body t origpath (take (S k) origpath))
      as [copypath| |ent] eqn:Hb.
    + pose proof Hb as Hb'. apply loop_body_Continue in Hb' as [-> _].
      rewrite chop_take in Hb by done. replace (S k - 1) with k in Hb by lia.
      destruct IH as (n & Hn1 & Hn2 & Hrun & Hres & Hbrk); [lia| |].
      { replace (length origpath - k) with (S (length origpath - S k)) by lia.
        simpl. by rewrite Hstart, iteration_loop_body. }
      exists n. split_and!; [lia|done| | |done].
      * intros i Hi1 Hi2.
        destruct (decide (i = length origpath - S k)) as [->|Hne].
        -- rewrite Hstart. f_equal. f_equal. lia.
        -- apply Hrun; lia.
      * by rewrite Hres, (for_loop_step t origpath (take (S k) origpath)), Hb.
    + exists (length origpath - S k).
      assert (after_iterations t origpath (S (length origpath - S k)) =
              proxymux.Break) as Hexit.
      { simpl. by rewrite Hstart, iteration_loop_body. }
      split_and!; [lia|lia| | |].
      * intros i ??. replace i with (length origpath - S k) by lia.
        rewrite Hstart. f_equal. f_equal. lia.
      * by rewrite Hexit, for_loop_step, Hb.
      * intros _. apply loop_body_Break in Hb as [Hnil|Hrepr].
        -- apply (f_equal length) in Hnil.
           rewrite length_take_le in Hnil by done. done.
        -- right. replace (length origpath - (length origpath - S k))
             with (S k) by lia. done.
    + exists (length origpath - S k).
      assert (after_iterations t origpath (S (length origpath - S k)) =
              proxymux.Return ent) as Hexit.
      { simpl. by rewrite Hstart, iteration_loop_body. }
      split_and!; [lia|lia| | |by rewrite Hexit].
      * intros i ??. replace i with (length origpath - S k) by lia.
        rewrite Hstart. f_equal. f_equal. lia.
      * by rewrite Hexit, for_loop_step, Hb.
Qed.

(** C9 (termination): the guard of the loop is always true, and still the
    loop is left after at most [len + 1] iterations, [len] the number of
    segments of the path: iteration [i] (from 0) examines the first
    [len - i] segments, from the whole sequence down; the loop is left by a
    [return] or a [break], with the result [findlongestmatch] returns; and a
    [break] happens after the empty sequence has been examined, or on a
    value that is not a mux entry. *)
Theorem findlongestmatch_terminates (t : trie.Trie proxymux.iface)
  (path : string) :
  let origpath := proxymux.splitpath path in
  (∀ copypath, proxymux.loop_guard copypath = true) ∧
  ∃ n, n ≤ length origpath ∧
    (∀ i, i ≤ n →
       after_iterations t origpath i =
       proxymux.Continue (take (length origpath - i) origpath)) ∧
    result_of (after_iterations t origpath (S n)) =
      Some (proxymux.findlongestmatch t path) ∧
    (after_iterations t origpath (S n) = proxymux.Break →
       n = length origpath ∨
       ∃ repr, trie.Get t (take (length origpath - n) origpath) =
                 Some (proxymux.NotMuxEntry repr)).
Proof.
  intros origpath. split; [apply loop_guard_true|].
  destruct (after_iterations_from t origpath (length origpath))
    as (n & _ & Hn & Hrun & Hres & Hbrk); [done| |].
  { rewrite Nat.sub_diag, take_ge by done. reflexivity. }
  exists n. split_and!; [done| | |done].
  - intros i Hi. apply Hrun; lia.
  - rewrite Hres. unfold proxymux.findlongestmatch. fold origpath.
    by rewrite take_ge.
Qed.

Example after_iterations_miss :
  let t := proxymux.trie mux_S2 in
  let origpath := proxymux.splitpath "/x/y" in
  after_iterations t origpath 0 = proxymux.Continue ["x"; "y"] ∧
  after_iterations t origpath 1 = proxymux.Continue ["x"] ∧
  after_iterations t origpath 2 = proxymux.Continue [] ∧
  after_iterations t origpath 3 = proxymux.Break.
Proof. vm_compute. done. Qed.

(** ** The backend id of a miss *)

(** C10: when [Lookup] reports a miss, the backend id it returns is 0, the
    id of the zero [muxEntry]; 0 is also the id the first [AddBackend] of a
    new Mux allocates, and a route registered for it is found with id 0 and
    the flag set.  Only the flag tells a miss from a match on backend 0. *)
Theorem lookup_miss_id_is_zero (mux : proxymux.Mux) (path : string) :
  (proxymux.Lookup mux path).2 = false →
  (proxymux.Lookup mux path).1 = 0%Z ∧
  proxymux.backendId proxymux.muxEntry_zero = 0%Z ∧
  ∀ target P pre,
    let '(mux', id) := proxymux.AddBackend proxymux.NewMux target in
    id = 0%Z ∧
    proxymux.GetBackend mux' 0 = Some (NewSingleHostReverseProxy target) ∧
    proxymux.Lookup (proxymux.Register mux' P pre id) P = (0%Z, true).
Proof.
  intros Hmiss. split_and!.
  - unfold proxymux.Lookup, proxymux.findlongestmatch in *.
    destruct (proxymux.for_loop _ _ _) as [entry ok] eqn:Hloop.
    simpl in *. subst ok.
    pose proof (for_loop_miss _ _ _ (f_equal snd Hloop)) as Hzero.
    rewrite Hloop in Hzero. by injection Hzero as ->.
  - reflexivity.
  - intros target P pre. simpl. split_and!; [done|done|].
    by apply Lookup_Register_same.
Qed.

Lemma lookup_miss_id_is_zero_witness :
  (proxymux.Lookup mux_S2 "/b").1 = 0%Z.
Proof.
  refine (proj1 (lookup_miss_id_is_zero mux_S2 "/b" _)).
  vm_compute. reflexivity.
Defined.

(** ** Reloading the routes *)

Section reload_facts.

Context {M S : Type} `{!TrieMux M} `{!Storage S}.
Variable parse_error : string → option error.

Implicit Types (w : World (M:=M) (S:=S)) (h : list M) (m : M).
Implicit Types (apps : gmap string Handler) (routes : list Route).

(** *** Draining an iterator *)

(** [for_Next] is the loop over [Next]: while [Next] binds a record the body
    runs on it, and the loop ends when [Next] returns false. *)
Lemma for_Next_Next {A St : Type} (iter : Iterator A) (body : St → A → St)
  (s : St) :
  for_Next iter body s =
  match Next iter with
  | (Some x, iter') => for_Next iter' body (body s x)
  | (None, iter') => (s, iter')
  end.
Proof.
  destruct iter as [[|x rest] fail]; reflexivity.
Qed.

Lemma for_Next_drained {A St : Type} (iter : Iterator A) (body : St → A → St)
  (s : St) :
  (Next (for_Next iter body s).2).1 = None ∧
  Err (for_Next iter body s).2 = Err iter.
Proof. done. Qed.

(** *** The applications pass *)

Lemma loadApplications_body_other apps (app : Application) (id : string) :
  ApplicationId app ≠ id →
  loadApplications_body parse_error apps app !! id = apps !! id.
Proof.
  intros Hne. unfold loadApplications_body, Parse.
  destruct (parse_error (BackendURL app)); [done|].
  by rewrite lookup_insert_ne.
Qed.

Lemma foldl_loadApplications_other apps (l : list Application) (id : string) :
  id ∉ ApplicationId <$> l →
  foldl (loadApplications_body parse_error) apps l !! id = apps !! id.
Proof.
  revert apps. induction l as [|app l IH]; intros apps Hid; [done|].
  rewrite fmap_cons, not_elem_of_cons in Hid. destruct Hid as [Hne Hid].
  simpl. rewrite IH by done. by apply loadApplications_body_other.
Qed.

(** With unique identifiers, an application is in the map exactly when its
    URL parses. *)
Lemma foldl_loadApplications_lookup apps (l : list Application)
  (app : Application) :
  NoDup (ApplicationId <$> l) → app ∈ l →
  foldl (loadApplications_body parse_error) apps l !! ApplicationId app =
  match parse_error (BackendURL app) with
  | Some _ => apps !! ApplicationId app
  | None => Some (NewSingleHostReverseProxy {| raw := BackendURL app |})
  end.
Proof.
  revert apps. induction l as [|app' l IH]; intros apps Hnd Hin.
  - by apply elem_of_nil in Hin.
  - rewrite fmap_cons in Hnd. apply NoDup_cons in Hnd as [Hfresh Hnd].
    apply elem_of_cons in Hin as [->|Hin]; simpl.
    + rewrite foldl_loadApplications_other by done.
      unfold loadApplications_body, Parse.
      destruct (parse_error (BackendURL app')); [done|].
      by rewrite lookup_insert_eq.
    + rewrite IH by done.
      assert (ApplicationId app' ≠ ApplicationId app) as Hne.
      { intros Heq. apply Hfresh. rewrite Heq.
        by apply list_elem_of_fmap_2. }
      destruct (parse_error (BackendURL app)); [|done].
      by apply loadApplications_body_other.
Qed.

Lemma loadApplications_ok (stor : S) (iter : Iterator Application) w :
  Applications stor = inl iter → Err iter = None →
  loadApplications parse_error stor w =
  (w, inl (foldl (loadApplications_body parse_error) ∅ (pending iter))).
Proof.
  intros Happs Herr. unfold loadApplications. rewrite Happs.
  unfold for_Next, Err in *. simpl. by rewrite Herr.
Qed.

(** *** The routes pass *)

(** What one iteration of the loop of [loadRoutes] does to the Mux at the
    address it is given. *)
Lemma loadRoutes_body_alter (mux : nat) apps h (route : Route) :
  loadRoutes_body mux apps h route =
  alter (λ m, foldl Handle_call m (Handle_calls apps [route])) mux h.
Proof.
  unfold loadRoutes_body, Handle_calls. simpl.
  destruct (apps !! Route_ApplicationId route); simpl; [done|].
  by rewrite list_alter_id.
Qed.

Lemma Handle_calls_app apps routes1 routes2 :
  Handle_calls apps (routes1 ++ routes2) =
  Handle_calls apps routes1 ++ Handle_calls apps routes2.
Proof. apply omap_app. Qed.

(** The loop of [loadRoutes] on a heap whose last cell is the new Mux: the
    heap below is untouched, and the new Mux receives the calls of [Handle]
    of the routes with a known application. *)
Lemma foldl_loadRoutes_body apps h m routes :
  foldl (loadRoutes_body (length h) apps) (h ++ [m]) routes =
  h ++ [foldl Handle_call m (Handle_calls apps routes)].
Proof.
  revert m. induction routes as [|route routes IH]; intros m; [done|].
  simpl. rewrite loadRoutes_body_alter.
  rewrite alter_app_r_alt, Nat.sub_diag by done. simpl.
  rewrite IH. unfold Handle_calls at 3. simpl.
  by destruct (apps !! Route_ApplicationId route).
Qed.

(** The routes with a known application are those that are handled. *)
Lemma Handle_calls_length apps routes :
  length (Handle_calls apps routes) =
  length (filter (λ route, is_Some (apps !! Route_ApplicationId route)) routes).
Proof.
  induction routes as [|route routes IH]; [done|].
  unfold Handle_calls in *. simpl. rewrite filter_cons.
  case_decide as Hknown.
  - destruct Hknown as [handler ->]. simpl. f_equal. apply IH.
  - apply eq_None_not_Some in Hknown. rewrite Hknown. apply IH.
Qed.

Lemma filter_known_unknown_length apps routes :
  length (filter (λ route, is_Some (apps !! Route_ApplicationId route)) routes) +
  length (filter (λ route, apps !! Route_ApplicationId route = None) routes) =
  length routes.
Proof.
  induction routes as [|route routes IH]; [done|].
  rewrite !filter_cons.
  destruct (apps !! Route_ApplicationId route) eqn:Happ.
  - rewrite decide_True, decide_False by eauto. simpl. lia.
  - rewrite decide_False, decide_True by (done || by intros [??]).
    simpl. lia.
Qed.

Lemma Handle_calls_known apps routes :
  Handle_calls apps
    (filter (λ route, is_Some (apps !! Route_ApplicationId route)) routes) =
  Handle_calls apps routes.
Proof.
  induction routes as [|route routes IH]; [done|].
  rewrite filter_cons. unfold Handle_calls in *. case_decide as Hknown.
  - destruct Hknown as [handler Hh]. simpl. rewrite Hh. simpl.
    f_equal. apply IH.
  - apply eq_None_not_Some in Hknown. simpl. rewrite Hknown. apply IH.
Qed.

Lemma Handle_calls_unknown apps routes :
  Handle_calls apps
    (filter (λ route, apps !! Route_ApplicationId route = None) routes) = [].
Proof.
  induction routes as [|route routes IH]; [done|].
  rewrite filter_cons. case_decide as Hunknown; [|done].
  unfold Handle_calls in *. simpl. by rewrite Hunknown.
Qed.

(** *** The reload, case by case *)

(** [ReloadRoutes] without the monad: what the panics, the deferred
    [Close] and the recovery amount to. *)
Lemma ReloadRoutes_unfold w :
  ReloadRoutes parse_error w =
  let oldmux := mux (rt w) in
  let newmux := length (heap w) in
  let '(s1, err) := Open (stor (rt w)) in
  let closed (m : nat) (h : list M) : World :=
    {| heap := h; rt := {| mux := m; stor := Close s1 |} |} in
  match err with
  | Some _ =>
      ({| heap := heap w; rt := {| mux := oldmux; stor := s1 |} |}, inl tt)
  | None =>
      match Applications s1 with
      | inr _ => (closed oldmux (heap w ++ [NewMux]), inl tt)
      | inl iterA =>
          match Err iterA with
          | Some _ => (closed oldmux (heap w ++ [NewMux]), inl tt)
          | None =>
              let apps :=
                foldl (loadApplications_body parse_error) ∅ (pending iterA) in
              match Routes s1 with
              | inr _ => (closed oldmux (heap w ++ [NewMux]), inl tt)
              | inl iterR =>
                  let h :=
                    heap w ++
                    [foldl Handle_call NewMux
                       (Handle_calls apps (pending iterR))] in
                  match Err iterR with
                  | Some _ => (closed oldmux h, inl tt)
                  | None => (closed newmux h, inl tt)
                  end
              end
          end
      end
  end.
Proof.
  unfold ReloadRoutes, mbind, Go_bind, bind, get_mux, defer_recover,
    stor_Open, defer, new_Mux, get_stor, assign_mux, stor_Close, set_mux,
    set_stor, panic.
  simpl. destruct (Open (stor (rt w))) as [s1 [err|]]; simpl; [done|].
  unfold loadApplications, loadRoutes, for_Next, Err, panic, ret. simpl.
  destruct (Applications s1) as [iterA|errA]; simpl; [|done].
  destruct (failure iterA) as [errA|]; simpl; [done|].
  destruct (Routes s1) as [iterR|errR]; simpl; [|done].
  rewrite foldl_loadRoutes_body.
  by destruct (failure iterR) as [errR|].
Qed.

(** *** The states of a reload *)

Lemma loop_states_loadRoutes_body apps h m routes :
  Forall (λ hi, ∃ m', hi = h ++ [m'])
    (loop_states (loadRoutes_body (length h) apps) (h ++ [m]) routes).
Proof.
  revert m. induction routes as [|route routes IH]; intros m; [constructor|].
  cbn [loop_states].
  assert (∃ m', loadRoutes_body (length h) apps (h ++ [m]) route = h ++ [m'])
    as [m' Hm'].
  { rewrite loadRoutes_body_alter, alter_app_r_alt, Nat.sub_diag by done.
    simpl. eauto. }
  rewrite Hm'. constructor; [eauto|apply IH].
Qed.

(** The statement-by-statement run ends as [ReloadRoutes] does. *)
Lemma ReloadRoutes_states_result w :
  (ReloadRoutes_states parse_error w).2 = ReloadRoutes parse_error w.
Proof.
  unfold ReloadRoutes_states, ReloadRoutes, mbind, Go_bind, bind, bindT, stmt,
    defer_recoverT, defer_recover, deferT, defer, panicT, get_mux, stor_Open,
    new_Mux, get_stor, assign_mux, stor_Close, set_mux, set_stor,
    loadApplications, loadRoutes_states, loadRoutes, for_Next, Err, panic, ret.
  simpl. destruct (Open (stor (rt w))) as [s1 [err|]]; simpl; [done|].
  destruct (Applications s1) as [iterA|errA]; simpl; [|done].
  destruct (failure iterA) as [errA|]; simpl; [done|].
  destruct (Routes s1) as [iterR|errR]; simpl; [|done].
  by destruct (failure iterR) as [errR|].
Qed.

Lemma ReloadRoutes_states_last w :
  last (ReloadRoutes_states parse_error w).1 =
  Some (ReloadRoutes_states parse_error w).2.1.
Proof.
  unfold ReloadRoutes_states, bindT, stmt,
    defer_recoverT, deferT, panicT, get_mux, stor_Open,
    new_Mux, get_stor, assign_mux, stor_Close, set_mux, set_stor,
    loadApplications, loadRoutes_states, for_Next, Err, panic, ret.
  simpl. destruct (Open (stor (rt w))) as [s1 [err|]]; simpl; [done|].
  destruct (Applications s1) as [iterA|errA]; simpl; [|done].
  destruct (failure iterA) as [errA|]; simpl; [done|].
  destruct (Routes s1) as [iterR|errR]; simpl; [|done].
  destruct (failure iterR) as [errR|]; simpl.
  - rewrite app_comm_cons, last_app. done.
  - rewrite app_comm_cons, last_app. done.
Qed.

(** Every state of a reload has the heap it started with below the new
    Mux, and the [mux] field it started with, but for the states of a reload
    without terminal error from the assignment of the new Mux on. *)
Lemma ReloadRoutes_states_mux w :
  Forall (λ wi, heap w `prefix_of` heap wi ∧
                (mux (rt wi) = mux (rt w) ∨
                 ¬ terminal_error (stor (rt w)) ∧
                 mux (rt wi) = length (heap w)))
    (ReloadRoutes_states parse_error w).1.
Proof.
  unfold ReloadRoutes_states, bindT, stmt,
    defer_recoverT, deferT, panicT, get_mux, stor_Open,
    new_Mux, get_stor, assign_mux, stor_Close, set_mux, set_stor,
    loadApplications, loadRoutes_states, for_Next, Err, panic, ret,
    terminal_error.
  assert (∀ m : M, heap w `prefix_of` heap w ++ [m]) as Happ
    by (intros; by apply prefix_app_r).
  simpl. destruct (Open (stor (rt w))) as [s1 [err|]]; simpl.
  { repeat constructor; simpl; done. }
  destruct (Applications s1) as [iterA|errA]; simpl.
  2: { repeat constructor; simpl; done. }
  destruct (failure iterA) as [errA|] eqn:HerrA; simpl.
  { repeat constructor; simpl; done. }
  destruct (Routes s1) as [iterR|errR]; simpl.
  2: { repeat constructor; simpl; done. }
  rewrite foldl_loadRoutes_body.
  set (apps := foldl (loadApplications_body parse_error) ∅ (pending iterA)).
  assert (∀ T : World (M:=M) (S:=S) → Prop,
          Forall (λ wi : World (M:=M) (S:=S),
                    heap w `prefix_of` heap wi ∧
                    (mux (rt wi) = mux (rt w) ∨ T wi))
            ((λ h', {| heap := h'; rt := {| mux := mux (rt w); stor := s1 |} |})
               <$> loop_states (loadRoutes_body (length (heap w)) apps)
                     (heap w ++ [NewMux]) (pending iterR))) as Hloop.
  { intros T. apply Forall_forall. intros wi Hin.
    apply list_elem_of_fmap in Hin as (hi & -> & Hin).
    pose proof (loop_states_loadRoutes_body apps (heap w) NewMux (pending iterR))
      as Hstates.
    rewrite Forall_forall in Hstates. destruct (Hstates hi Hin) as [m' ->].
    simpl. split; [apply Happ|by left]. }
  destruct (failure iterR) as [errR|] eqn:HerrR; simpl.
  - do 5 (constructor; [simpl; split; [done||apply Happ|by left]|]).
    rewrite <- app_assoc. apply Forall_app. split; [apply (Hloop (λ wi, _ ∧ mux (rt wi) = length (heap w)))|].
    repeat constructor; simpl; done || apply Happ.
  - do 5 (constructor; [simpl; split; [done||apply Happ|by left]|]).
    rewrite <- app_assoc. apply Forall_app. split; [apply (Hloop (λ wi, _ ∧ mux (rt wi) = length (heap w)))|].
    match goal with |- context [¬ ?T ∧ _] => assert (¬ T) as Hnone end.
    { intros [?|[[e He]|[(iter & e & Hi & He)|[[e He]|(iter & e & Hi & He)]]]].
      - done.
      - discriminate He.
      - injection Hi as <-. unfold Err in *. congruence.
      - discriminate He.
      - injection Hi as <-. unfold Err in *. congruence. }
    repeat (apply Forall_cons; split; [split; [apply Happ|by right]|]).
    by apply Forall_nil.
Qed.

End reload_facts.

Section reload_claims.

Context {M S : Type} `{!TrieMux M} `{!Storage S}.
Variable parse_error : string → option error.

Implicit Types (w : World (M:=M) (S:=S)).
Implicit Types (iterA : Iterator Application) (iterR : Iterator Route).

(** C3 (rollback on failure): when a reload meets a terminal error, the
    router's [mux] field holds the same address as before the reload, every
    Mux that was on the heap is unchanged, and so the active Mux is the Mux
    it was.  The same holds of every state the reload goes through,
    statement by statement, up to the last, which is the state
    [ReloadRoutes] returns in: the Mux under construction, which lives at
    the address [length (heap w)], is never published. *)
Theorem reload_error_keeps_active_mux w :
  terminal_error (stor (rt w)) →
  let w' := (ReloadRoutes parse_error w).1 in
  mux (rt w') = mux (rt w) ∧
  heap w `prefix_of` heap w' ∧
  (∀ m, heap w !! mux (rt w) = Some m → heap w' !! mux (rt w') = Some m) ∧
  (ReloadRoutes_states parse_error w).2 = ReloadRoutes parse_error w ∧
  last (ReloadRoutes_states parse_error w).1 = Some w' ∧
  Forall (λ wi,
            mux (rt wi) = mux (rt w) ∧
            heap w `prefix_of` heap wi ∧
            (∀ m, heap w !! mux (rt w) = Some m →
                  heap wi !! mux (rt wi) = Some m) ∧
            (mux (rt w) < length (heap w) →
             mux (rt wi) ≠ length (heap w)))
    (ReloadRoutes_states parse_error w).1.
Proof.
  intros Herr w'.
  assert (mux (rt w') = mux (rt w) ∧ heap w `prefix_of` heap w') as [Hmux Hpre].
  { subst w'. rewrite ReloadRoutes_unfold. unfold terminal_error in Herr.
    destruct (Open (stor (rt w))) as [s1 [err|]]; simpl in *; [done|].
    destruct (Applications s1) as [iterA|errA]; simpl;
      [|split; [done|by apply prefix_app_r]].
    destruct (Err iterA) as [errA|] eqn:HerrA; simpl;
      [split; [done|by apply prefix_app_r]|].
    destruct (Routes s1) as [iterR|errR]; simpl;
      [|split; [done|by apply prefix_app_r]].
    destruct (Err iterR) as [errR|] eqn:HerrR; simpl;
      [split; [done|by apply prefix_app_r]|].
    exfalso.
    destruct Herr
      as [?|[[e He]|[(iter & e & Hi & He)|[[e He]|(iter & e & Hi & He)]]]].
    - done.
    - discriminate He.
    - injection Hi as <-. congruence.
    - discriminate He.
    - injection Hi as <-. congruence. }
  split_and!; [done|done| |apply ReloadRoutes_states_result| |].
  - intros m Hm. rewrite Hmux. destruct Hpre as [k ->].
    by apply lookup_app_l_Some.
  - rewrite ReloadRoutes_states_last. subst w'.
    by rewrite ReloadRoutes_states_result.
  - eapply Forall_impl; [apply ReloadRoutes_states_mux|].
    intros wi [Hheap [Hold|[Hno _]]]; [|by destruct Hno].
    split_and!; [done|done| |lia].
    intros m Hm. rewrite Hold. destruct Hheap as [k ->].
    by apply lookup_app_l_Some.
Qed.

(** C6 (unknown-backend routes are skipped): in a reload without terminal
    error, among the routes of the stream [K] name an application the
    applications pass registered and [J] do not.  The reload publishes the
    new Mux, on which [Handle] was called once for each of the [K] valid
    routes, in order, and for no other route. *)
Theorem dangling_routes_are_skipped w (s1 : S) iterA iterR :
  Open (stor (rt w)) = (s1, None) →
  Applications s1 = inl iterA → Err iterA = None →
  Routes s1 = inl iterR → Err iterR = None →
  let apps := foldl (loadApplications_body parse_error) ∅ (pending iterA) in
  let valid := filter (λ route, is_Some (apps !! Route_ApplicationId route))
                 (pending iterR) in
  let dangling := filter (λ route, apps !! Route_ApplicationId route = None)
                    (pending iterR) in
  let w' := (ReloadRoutes parse_error w).1 in
  (ReloadRoutes parse_error w).2 = inl tt ∧
  mux (rt w') = length (heap w) ∧
  heap w' !! mux (rt w') = Some (foldl Handle_call NewMux (Handle_calls apps valid)) ∧
  length (Handle_calls apps valid) = length valid ∧
  Handle_calls apps dangling = [] ∧
  length valid + length dangling = length (pending iterR).
Proof.
  intros HOpen HA HerrA HR HerrR apps valid dangling w'.
  subst w'. rewrite ReloadRoutes_unfold, HOpen. simpl.
  rewrite HA, HerrA, HR, HerrR. simpl. fold apps. split_and!.
  - done.
  - done.
  - subst valid. rewrite Handle_calls_known. by rewrite list_lookup_middle.
  - subst valid. rewrite Handle_calls_known. apply Handle_calls_length.
  - apply Handle_calls_unknown.
  - apply filter_known_unknown_length.
Qed.

(** The applications pass with a record whose URL does not parse, for any
    multiplexer: with unique identifiers no handler is kept for the record,
    every application whose URL parses has its handler, a route that names
    the record gives no call of [Handle], and the reload publishes the new
    Mux. *)
Lemma applications_pass_skips_malformed w (s1 : S) iterA iterR
  (bad : Application) :
  Open (stor (rt w)) = (s1, None) →
  Applications s1 = inl iterA → Err iterA = None →
  Routes s1 = inl iterR → Err iterR = None →
  NoDup (ApplicationId <$> pending iterA) →
  bad ∈ pending iterA → is_Some (parse_error (BackendURL bad)) →
  let apps := foldl (loadApplications_body parse_error) ∅ (pending iterA) in
  let w' := (ReloadRoutes parse_error w).1 in
  (∀ w0, loadApplications parse_error s1 w0 = (w0, inl apps)) ∧
  apps !! ApplicationId bad = None ∧
  (∀ app, app ∈ pending iterA → parse_error (BackendURL app) = None →
     apps !! ApplicationId app =
     Some (NewSingleHostReverseProxy {| raw := BackendURL app |})) ∧
  (∀ route, Route_ApplicationId route = ApplicationId bad →
     Handle_calls apps [route] = []) ∧
  (ReloadRoutes parse_error w).2 = inl tt ∧
  mux (rt w') = length (heap w) ∧
  heap w' !! mux (rt w') =
    Some (foldl Handle_call NewMux (Handle_calls apps (pending iterR))).
Proof.
  intros HOpen HA HerrA HR HerrR Hnd Hbad [err Hparse] apps w'.
  assert (apps !! ApplicationId bad = None) as Hnone.
  { subst apps. rewrite foldl_loadApplications_lookup by done.
    by rewrite Hparse. }
  split_and!.
  - intros w0. by apply loadApplications_ok.
  - done.
  - intros app Happ Hok. subst apps.
    rewrite foldl_loadApplications_lookup by done. by rewrite Hok.
  - intros route Hroute. unfold Handle_calls. simpl.
    by rewrite Hroute, Hnone.
  - rewrite ReloadRoutes_unfold, HOpen. simpl.
    by rewrite HA, HerrA, HR, HerrR.
  - subst w'. rewrite ReloadRoutes_unfold, HOpen. simpl.
    by rewrite HA, HerrA, HR, HerrR.
  - subst w'. rewrite ReloadRoutes_unfold, HOpen. simpl.
    rewrite HA, HerrA, HR, HerrR. simpl. by rewrite list_lookup_middle.
Qed.

End reload_claims.

(** ** Worked reloads *)

(** Scenario S5: the reload succeeds, [/x] is not served and [/y] is. *)
Example S5_malformed_backend_url :
  mux (rt world_S5) = 1 ∧
  ServeHTTP world_S5 {| URL_Path := "/x" |} =
    Some (NotFound {| URL_Path := "/x" |}) ∧
  ServeHTTP world_S5 {| URL_Path := "/y" |} =
    Some (ProxyServeHTTP (NewSingleHostReverseProxy {| raw := "http://b" |})
            {| URL_Path := "/y" |}).
Proof. vm_compute. done. Qed.

(** Scenario S6: after the failed reload the routes of S2 still serve, and
    the route the failed reload had read does not. *)
Example S6_reload_rollback :
  mux (rt world_S6) = mux (rt world_S2) ∧
  ServeHTTP world_S6 {| URL_Path := "/a/b/c" |} =
    Some (ProxyServeHTTP (NewSingleHostReverseProxy {| raw := "http://b" |})
            {| URL_Path := "/a/b/c" |}) ∧
  ServeHTTP world_S6 {| URL_Path := "/z" |} =
    Some (NotFound {| URL_Path := "/z" |}).
Proof. vm_compute. done. Qed.

Lemma reload_error_keeps_active_mux_witness :
  let w := set_stor storage_S6 world_S2 in
  let w' := (ReloadRoutes missing_scheme w).1 in
  mux (rt w') = mux (rt w) ∧
  heap w `prefix_of` heap w' ∧
  (∀ m, heap w !! mux (rt w) = Some m → heap w' !! mux (rt w') = Some m) ∧
  (ReloadRoutes_states missing_scheme w).2 = ReloadRoutes missing_scheme w ∧
  last (ReloadRoutes_states missing_scheme w).1 = Some w' ∧
  Forall (λ wi,
            mux (rt wi) = mux (rt w) ∧
            heap w `prefix_of` heap wi ∧
            (∀ m, heap w !! mux (rt w) = Some m →
                  heap wi !! mux (rt wi) = Some m) ∧
            (mux (rt w) < length (heap w) →
             mux (rt wi) ≠ length (heap w)))
    (ReloadRoutes_states missing_scheme w).1.
Proof.
  apply (reload_error_keeps_active_mux missing_scheme
           (set_stor storage_S6 world_S2)).
  unfold terminal_error. do 4 right. eexists _, _. split; reflexivity.
Defined.

(** The states of the failed reload of scenario S6: eight of them, the
    router pointing to the Mux of S2, at address 1, in each, while the Mux
    under construction is at address 2. *)
Example S6_states :
  (λ wi, (mux (rt wi), length (heap wi)))
    <$> (ReloadRoutes_states missing_scheme (set_stor storage_S6 world_S2)).1
  = [(1, 2); (1, 2); (1, 3); (1, 3); (1, 3); (1, 3); (1, 3); (1, 3)].
Proof. vm_compute. reflexivity. Qed.

(** The states of the successful reload of scenario S2, for comparison: the
    new Mux, at address 1, is published by the last assignment only, after
    both routes are registered. *)
Example S2_states :
  (λ wi, (mux (rt wi), length (heap wi)))
    <$> (ReloadRoutes_states missing_scheme (world_new storage_S2)).1
  = [(0, 1); (0, 1); (0, 2); (0, 2); (0, 2); (0, 2); (0, 2); (1, 2); (1, 2)].
Proof. vm_compute. reflexivity. Qed.

Lemma dangling_routes_are_skipped_witness :
  let w := world_new storage_dangling in
  let w' := (ReloadRoutes missing_scheme w).1 in
  (ReloadRoutes missing_scheme w).2 = inl tt ∧ mux (rt w') = 1 ∧
  ∃ valid, length valid = 2 ∧
    heap w' !! mux (rt w') =
    Some (foldl Handle_call NewMux
            (Handle_calls
               (foldl (loadApplications_body missing_scheme) ∅
                  [ {| ApplicationId := "A"; BackendURL := "http://a" |};
                    {| ApplicationId := "B"; BackendURL := "http://b" |} ])
               valid)).
Proof.
  intros w w'.
  destruct (dangling_routes_are_skipped missing_scheme w
              (Open storage_dangling).1
              {| pending := [ {| ApplicationId := "A"; BackendURL := "http://a" |};
                              {| ApplicationId := "B"; BackendURL := "http://b" |} ];
                 failure := None |}
              {| pending :=
                   [ {| IncomingPath := "/a"; Route_ApplicationId := "A";
                        RouteType := "prefix" |};
                     {| IncomingPath := "/c"; Route_ApplicationId := "C";
                        RouteType := "exact" |};
                     {| IncomingPath := "/b"; Route_ApplicationId := "B";
                        RouteType := "exact" |} ];
                 failure := None |})
    as (Hres & Hmux & Hheap & Hlen & _ & _); try reflexivity.
  split_and!; [exact Hres|exact Hmux|].
  eexists. split; [|exact Hheap]. vm_compute. reflexivity.
Defined.

(** ** Misses of the Mux *)

Lemma for_loop_no_entry (t : trie.Trie proxymux.iface)
  (origpath : list string) (n : nat) :
  n ≤ length origpath →
  (∀ j, j ≤ n → trie.Get t (take j origpath) = None) →
  proxymux.for_loop t origpath (take n origpath) =
  (proxymux.muxEntry_zero, false).
Proof.
  intros Hn Hnone.
  rewrite (for_loop_descend t origpath 0 n); [|lia|done|].
  - apply for_loop_bottom. left. apply Hnone. lia.
  - intros j _ Hj. left. by apply Hnone.
Qed.

(** No ancestor of the path has an entry: the lookup is a miss. *)
Lemma Lookup_no_ancestor (mux : proxymux.Mux) (R : string) :
  (∀ key, key `prefix_of` proxymux.splitpath R →
          trie.Get (proxymux.trie mux) key = None) →
  proxymux.Lookup mux R = (0%Z, false).
Proof.
  intros Hnone. unfold proxymux.Lookup, proxymux.findlongestmatch.
  rewrite <- (take_ge (proxymux.splitpath R) (length (proxymux.splitpath R)))
    at 2 by done.
  rewrite for_loop_no_entry; [done..|].
  intros j _. apply Hnone, prefix_take.
Qed.

Lemma Lookup_NewMux (path : string) :
  proxymux.Lookup proxymux.NewMux path = (0%Z, false).
Proof. apply Lookup_no_ancestor. intros key _. apply Get_NewTrie. Qed.

(** Whatever the Mux, its own replies are "not found" pages. *)
Lemma ServeHTTP_replies (mux : proxymux.Mux) (r : Request) :
  proxymux.ServeHTTP mux r = NotFound r ∨
  ∃ proxy, proxymux.ServeHTTP mux r = ProxyServeHTTP proxy r.
Proof.
  unfold proxymux.ServeHTTP.
  destruct (proxymux.Lookup mux (URL_Path r)) as [id [|]]; simpl; [|by left].
  destruct (proxymux.GetBackend mux id) as [proxy|]; [|by left].
  right. by exists proxy.
Qed.

(** C4, as the code has it: a router that has not reloaded yet holds an
    empty Mux, and answers every request with the 404 "not found" page, the
    reply of a lookup miss; the Mux has no other reply of its own, and none
    of the 5xx class. *)
Theorem new_router_serves_not_found {S : Type} `{!Storage S}
  (h : list proxymux.Mux) (stor : S) (r : Request) :
  ServeHTTP (NewRouter h stor) r = Some (NotFound r) ∧
  status (NotFound r) = Some 404%Z ∧
  ∀ mux r',
    proxymux.ServeHTTP mux r' = NotFound r' ∨
    ∃ proxy, proxymux.ServeHTTP mux r' = ProxyServeHTTP proxy r'.
Proof.
  split_and!; [|done|apply ServeHTTP_replies].
  unfold ServeHTTP, NewRouter. simpl. rewrite list_lookup_middle by done.
  simpl. unfold proxymux.ServeHTTP. by rewrite Lookup_NewMux.
Qed.

(** C4 as stated fails: the reply of a router that has never reloaded is
    not of the 5xx class. *)
Lemma new_router_reply_is_not_5xx :
  ¬ ∃ msg code,
      ServeHTTP (world_new storage_S2) {| URL_Path := "/" |} =
        Some (Error msg code) ∧
      (500 ≤ code < 600)%Z.
Proof.
  intros (msg & code & Hserve & Hcode).
  vm_compute in Hserve. injection Hserve as <- <-. lia.
Qed.

(** ** Requests for routes that were skipped *)

Lemma trie_Handle_call (m : proxymux.Mux) (call : string * bool * Handler)
  (key : list string) :
  proxymux.splitpath call.1.1 ≠ key →
  trie.Get (proxymux.trie (Handle_call m call)) key =
  trie.Get (proxymux.trie m) key.
Proof.
  destruct call as [[path pre] handler]. intros Hne.
  unfold Handle_call. cbn [Handle proxymux_TrieMux].
  unfold proxymux_Handle, proxymux.Register. cbn [proxymux.trie].
  apply Get_Set_ne. exact Hne.
Qed.

Lemma trie_foldl_Handle_call (m : proxymux.Mux)
  (calls : list (string * bool * Handler)) (key : list string) :
  (∀ call, call ∈ calls → proxymux.splitpath call.1.1 ≠ key) →
  trie.Get (proxymux.trie (foldl Handle_call m calls)) key =
  trie.Get (proxymux.trie m) key.
Proof.
  revert m. induction calls as [|call calls IH]; intros m Hne; [done|].
  simpl. rewrite IH by (intros; apply Hne; by right).
  apply trie_Handle_call, Hne. by left.
Qed.

Lemma Handle_calls_route (apps : gmap string Handler) (routes : list Route)
  (call : string * bool * Handler) :
  call ∈ Handle_calls apps routes →
  ∃ route, route ∈ routes ∧ IncomingPath route = call.1.1 ∧
           is_Some (apps !! Route_ApplicationId route).
Proof.
  unfold Handle_calls. rewrite list_elem_of_omap.
  intros (route & Hin & Hcall). exists route. split; [done|].
  destruct (apps !! Route_ApplicationId route) as [handler|]; [|done].
  simpl in Hcall. injection Hcall as <-. eauto.
Qed.

(** After a reload without terminal error, a request is answered with the
    404 page when every route of the stream at the request path or at an
    ancestor of it names an application without handler: the routes of a
    skipped application do not serve. *)
Lemma skipped_routes_are_not_found {S : Type} `{!Storage S}
  (parse_error : string → option error)
  (w : World (M:=proxymux.Mux) (S:=S)) (s1 : S)
  (iterA : Iterator Application) (iterR : Iterator Route) (r : Request) :
  Open (stor (rt w)) = (s1, None) →
  Applications s1 = inl iterA → Err iterA = None →
  Routes s1 = inl iterR → Err iterR = None →
  let apps := foldl (loadApplications_body parse_error) ∅ (pending iterA) in
  (∀ route, route ∈ pending iterR →
     proxymux.splitpath (IncomingPath route) `prefix_of`
       proxymux.splitpath (URL_Path r) →
     apps !! Route_ApplicationId route = None) →
  ServeHTTP (ReloadRoutes parse_error w).1 r = Some (NotFound r).
Proof.
  intros HOpen HA HerrA HR HerrR apps Hskipped.
  rewrite ReloadRoutes_unfold, HOpen. simpl.
  rewrite HA, HerrA, HR, HerrR. unfold ServeHTTP. simpl.
  rewrite list_lookup_middle by done. simpl. fold apps.
  unfold proxymux.ServeHTTP. rewrite Lookup_no_ancestor; [done|].
  intros key Hkey. rewrite trie_foldl_Handle_call; [apply Get_NewTrie|].
  intros call Hcall Heq. subst key.
  apply Handle_calls_route in Hcall as (route & Hin & Hpath & [handler Hh]).
  rewrite <- Hpath in Hkey. rewrite (Hskipped route Hin Hkey) in Hh.
  discriminate Hh.
Qed.

(** ** A malformed backend URL *)

(** C5, as the code has it (a malformed backend URL is not fatal): let the
    applications stream, with pairwise distinct identifiers, hold a record
    [bad] whose URL does not parse, in a reload without terminal error.  The
    applications pass does not panic; it registers no handler for the
    identifier of [bad], and the handler of its URL for every application
    whose URL parses; a route that names [bad] is skipped; the reload
    publishes the new Mux; and on it a request is answered with the 404 page
    when the routes of the stream at its path and above it all name
    [bad]. *)
Theorem malformed_backend_url_is_skipped {S : Type} `{!Storage S}
  (parse_error : string → option error)
  (w : World (M:=proxymux.Mux) (S:=S)) (s1 : S)
  (iterA : Iterator Application) (iterR : Iterator Route)
  (bad : Application) :
  Open (stor (rt w)) = (s1, None) →
  Applications s1 = inl iterA → Err iterA = None →
  Routes s1 = inl iterR → Err iterR = None →
  NoDup (ApplicationId <$> pending iterA) →
  bad ∈ pending iterA → is_Some (parse_error (BackendURL bad)) →
  let apps := foldl (loadApplications_body parse_error) ∅ (pending iterA) in
  let w' := (ReloadRoutes parse_error w).1 in
  (∀ w0 : World (M:=proxymux.Mux) (S:=S),
     loadApplications parse_error s1 w0 = (w0, inl apps)) ∧
  apps !! ApplicationId bad = None ∧
  (∀ app, app ∈ pending iterA → parse_error (BackendURL app) = None →
     apps !! ApplicationId app =
     Some (NewSingleHostReverseProxy {| raw := BackendURL app |})) ∧
  (∀ route, Route_ApplicationId route = ApplicationId bad →
     Handle_calls apps [route] = []) ∧
  (ReloadRoutes parse_error w).2 = inl tt ∧
  mux (rt w') = length (heap w) ∧
  heap w' !! mux (rt w') =
    Some (foldl Handle_call NewMux (Handle_calls apps (pending iterR))) ∧
  (∀ r,
     (∀ route, route ∈ pending iterR →
        proxymux.splitpath (IncomingPath route) `prefix_of`
          proxymux.splitpath (URL_Path r) →
        Route_ApplicationId route = ApplicationId bad) →
     ServeHTTP w' r = Some (NotFound r)).
Proof.
  intros HOpen HA HerrA HR HerrR Hnd Hbad Hparse apps w'.
  destruct (applications_pass_skips_malformed parse_error w s1 iterA iterR bad)
    as (Hload & Hnone & Hothers & Hskip & Hres & Hmux & Hheap); [done..|].
  split_and!; [exact Hload|exact Hnone|exact Hothers|exact Hskip|exact Hres
              |exact Hmux|exact Hheap|].
  intros r Hroutes. subst w'.
  apply (skipped_routes_are_not_found parse_error w s1 iterA iterR r);
    [done..|].
  intros route Hin Hpre. by rewrite (Hroutes route Hin Hpre).
Qed.

Lemma malformed_backend_url_is_skipped_witness :
  let w := world_new storage_S5 in
  let apps :=
    foldl (loadApplications_body missing_scheme) ∅
      [ {| ApplicationId := "A"; BackendURL := "://bad" |};
        {| ApplicationId := "B"; BackendURL := "http://b" |} ] in
  apps !! "A" = None ∧ (ReloadRoutes missing_scheme w).2 = inl tt ∧
  ServeHTTP (ReloadRoutes missing_scheme w).1 {| URL_Path := "/x" |} =
    Some (NotFound {| URL_Path := "/x" |}).
Proof.
  intros w apps.
  destruct (malformed_backend_url_is_skipped missing_scheme w
              (Open storage_S5).1
              {| pending := [ {| ApplicationId := "A"; BackendURL := "://bad" |};
                              {| ApplicationId := "B"; BackendURL := "http://b" |} ];
                 failure := None |}
              {| pending :=
                   [ {| IncomingPath := "/x"; Route_ApplicationId := "A";
                        RouteType := "exact" |};
                     {| IncomingPath := "/y"; Route_ApplicationId := "B";
                        RouteType := "exact" |} ];
                 failure := None |}
              {| ApplicationId := "A"; BackendURL := "://bad" |})
    as (_ & Hnone & _ & _ & Hres & _ & _ & Hserve); try reflexivity.
  - simpl. apply NoDup_cons. split; [|apply NoDup_singleton].
    intros Hin. apply list_elem_of_singleton in Hin. discriminate Hin.
  - apply elem_of_cons. by left.
  - vm_compute. eauto.
  - split_and!; [exact Hnone|exact Hres|]. apply Hserve.
    intros route Hin Hpre. simpl in Hin.
    apply elem_of_cons in Hin as [->|Hin]; [reflexivity|].
    apply list_elem_of_singleton in Hin. subst route.
    exfalso. revert Hpre. vm_compute. intros [k Hk]. discriminate Hk.
Defined.

(** C5 as stated fails on a stream in which two records carry the same
    identifier: the record with the malformed URL is skipped, and the
    identifier keeps the handler of the other record. *)
Lemma malformed_backend_url_id_still_registered :
  ¬ (∀ (stor : ScriptedStorage) (iterA : Iterator Application)
       (bad : Application) (apps : gmap string Handler)
       (w : World (M:=proxymux.Mux) (S:=ScriptedStorage)),
       Applications stor = inl iterA → Err iterA = None →
       bad ∈ pending iterA → is_Some (missing_scheme (BackendURL bad)) →
       loadApplications missing_scheme stor w = (w, inl apps) →
       apps !! ApplicationId bad = None).
Proof.
  intros Hclaim.
  specialize (Hclaim storage_shared_id
                {| pending := [ {| ApplicationId := "A"; BackendURL := "http://a" |};
                                {| ApplicationId := "A"; BackendURL := "://bad" |} ];
                   failure := None |}
                {| ApplicationId := "A"; BackendURL := "://bad" |}
                {[ "A" := NewSingleHostReverseProxy {| raw := "http://a" |} ]}
                (world_new storage_shared_id)).
  assert (({[ "A" := NewSingleHostReverseProxy {| raw := "http://a" |} ]}
             : gmap string Handler) !! "A" = None) as Habsurd.
  { apply Hclaim.
    - reflexivity.
    - reflexivity.
    - apply elem_of_cons. right. apply elem_of_cons. by left.
    - vm_compute. eauto.
    - unfold loadApplications. simpl. unfold loadApplications_body, Parse.
      simpl. by rewrite insert_empty. }
  by rewrite lookup_singleton_eq in Habsurd.
Qed.

(** On that stream the route of the application is registered and its
    requests are served. *)
Example shared_id_is_served :
  ServeHTTP world_shared_id {| URL_Path := "/x" |} =
  Some (ProxyServeHTTP (NewSingleHostReverseProxy {| raw := "http://a" |})
          {| URL_Path := "/x" |}).
Proof. vm_compute. reflexivity. Qed.

(** * Further properties *)

(** ** What [splitpath] returns *)

Lemma Split_not_nil (s : string) (sep : ascii) : Split s sep ≠ [].
Proof.
  destruct s as [|c rest]; [done|]. simpl.
  destruct (Ascii.eqb c sep); [done|]. by destruct (Split rest sep).
Qed.

Lemma Join_cons_cons (seg seg' : string) (rest : list string) (sep : string) :
  Join (seg :: seg' :: rest) sep = seg +:+ sep +:+ Join (seg' :: rest) sep.
Proof. reflexivity. Qed.

(** Joining what [Split] returns gives the string back. *)
Lemma Join_Split (s : string) (sep : ascii) :
  Join (Split s sep) (String sep "") = s.
Proof.
  induction s as [|c rest IH]; [reflexivity|].
  pose proof (Split_not_nil rest sep) as Hne. simpl.
  destruct (Ascii.eqb_spec c sep) as [->|Hc].
  - destruct (Split rest sep) as [|seg segs]; [done|].
    rewrite Join_cons_cons, IH. reflexivity.
  - destruct (Split rest sep) as [|seg [|seg' segs]]; [done| |].
    + simpl in *. by rewrite IH.
    + rewrite Join_cons_cons in *. simpl. by rewrite <- IH.
Qed.

Lemma strip_leading_slashes_no_slash (path : string) :
  HasPrefix (proxymux.strip_leading_slashes path) "/" = false.
Proof.
  induction path as [|c rest IH]; [reflexivity|].
  rewrite strip_leading_slashes_cons. case_bool_decide as Hc; [done|].
  rewrite HasPrefix_slash. by rewrite bool_decide_eq_false_2.
Qed.

Lemma strip_leading_slashes_empty (path : string) :
  proxymux.strip_leading_slashes path = "" ↔ only_slashes path = true.
Proof.
  induction path as [|c rest IH]; [done|].
  rewrite strip_leading_slashes_cons. cbn [only_slashes].
  destruct (Ascii.eqb_spec c "/") as [->|Hc].
  - by rewrite bool_decide_eq_true_2.
  - by rewrite bool_decide_eq_false_2.
Qed.

Lemma splitpath_unfold (path : string) :
  proxymux.splitpath path =
  if String.eqb (proxymux.strip_leading_slashes path) "" then []
  else Split (proxymux.strip_leading_slashes path) "/".
Proof. reflexivity. Qed.

(** X1 (round trip of [splitpath]): the segments [splitpath] returns, joined
    with slashes, are the path without its leading slashes. *)
Theorem splitpath_Join (path : string) :
  Join (proxymux.splitpath path) "/" = proxymux.strip_leading_slashes path.
Proof.
  rewrite splitpath_unfold.
  destruct (String.eqb_spec (proxymux.strip_leading_slashes path) "") as [->|_];
    [done|].
  apply Join_Split.
Qed.

Lemma Split_no_sep (s : string) (sep : ascii) (seg : string) :
  seg ∈ Split s sep → contains_byte seg sep = false.
Proof.
  revert seg. induction s as [|c rest IH]; intros seg; simpl.
  - intros Hin. apply list_elem_of_singleton in Hin. by subst.
  - destruct (Ascii.eqb c sep) eqn:Hc.
    + intros [->|Hin]%elem_of_cons; [done|]. by apply IH.
    + pose proof (Split_not_nil rest sep) as Hne.
      destruct (Split rest sep) as [|seg' segs]; [done|].
      intros [->|Hin]%elem_of_cons.
      * simpl. rewrite Hc. simpl. apply IH. by left.
      * apply IH. by right.
Qed.

Lemma Split_app_sep (s : string) (sep : ascii) :
  Split (s +:+ String sep "") sep = Split s sep ++ [""].
Proof.
  induction s as [|c rest IH].
  - simpl. by rewrite Ascii.eqb_refl.
  - change (String c rest +:+ String sep "")
      with (String c (rest +:+ String sep "")).
    pose proof (Split_not_nil rest sep) as Hne.
    cbn [Split]. rewrite IH. destruct (Ascii.eqb c sep); [done|].
    by destruct (Split rest sep).
Qed.

Lemma strip_leading_slashes_app (path s : string) :
  only_slashes path = false →
  proxymux.strip_leading_slashes (path +:+ s) =
  proxymux.strip_leading_slashes path +:+ s.
Proof.
  induction path as [|c rest IH]; [done|].
  change (String c rest +:+ s) with (String c (rest +:+ s)).
  rewrite !strip_leading_slashes_cons. cbn [only_slashes].
  destruct (Ascii.eqb_spec c "/") as [->|Hc].
  - rewrite bool_decide_eq_true_2 by done. apply IH.
  - by rewrite bool_decide_eq_false_2.
Qed.

(** X2 (segments): no segment [splitpath] returns contains a slash; the
    first segment is not empty, while later segments may be: a slash at the
    end of a path adds an empty last segment. *)
Theorem splitpath_segments (path : string) :
  (∀ seg, seg ∈ proxymux.splitpath path → contains_byte seg "/" = false) ∧
  (∀ seg segs, proxymux.splitpath path = seg :: segs → seg ≠ "") ∧
  (only_slashes path = false →
     proxymux.splitpath (path +:+ "/") = proxymux.splitpath path ++ [""]).
Proof.
  split_and!.
  - intros seg. rewrite splitpath_unfold.
    destruct (String.eqb (proxymux.strip_leading_slashes path) "");
      [by intros ?%elem_of_nil|].
    apply Split_no_sep.
  - intros seg segs. rewrite splitpath_unfold.
    pose proof (strip_leading_slashes_no_slash path) as Hno.
    destruct (String.eqb_spec (proxymux.strip_leading_slashes path) "")
      as [|Hne]; [done|].
    destruct (proxymux.strip_leading_slashes path) as [|c rest]; [done|].
    rewrite HasPrefix_slash in Hno. apply bool_decide_eq_false in Hno.
    cbn [Split]. destruct (Ascii.eqb_spec c "/") as [|_]; [done|].
    destruct (Split rest "/"); intros [= <- _]; done.
  - intros Hpath. rewrite !splitpath_unfold.
    rewrite strip_leading_slashes_app by done.
    assert (proxymux.strip_leading_slashes path ≠ "") as Hne.
    { rewrite strip_leading_slashes_empty. by rewrite Hpath. }
    destruct (String.eqb_spec (proxymux.strip_leading_slashes path) "")
      as [|_]; [done|].
    destruct (String.eqb_spec (proxymux.strip_leading_slashes path +:+ "/") "")
      as [Heq|_].
    + by destruct (proxymux.strip_leading_slashes path).
    + apply Split_app_sep.
Qed.

Lemma splitpath_segments_witness :
  proxymux.splitpath ("/a//b" +:+ "/") = proxymux.splitpath "/a//b" ++ [""].
Proof.
  apply (splitpath_segments "/a//b"). reflexivity.
Defined.

(** X3 (the root): [splitpath] returns the empty sequence exactly for the
    paths that consist of slashes only. *)
Theorem splitpath_nil_iff (path : string) :
  proxymux.splitpath path = [] ↔ only_slashes path = true.
Proof.
  rewrite <- strip_leading_slashes_empty, splitpath_unfold.
  destruct (String.eqb_spec (proxymux.strip_leading_slashes path) "")
    as [Heq|Hne]; [done|].
  split; [|done]. intros Hnil. by apply Split_not_nil in Hnil.
Qed.

(** ** What a lookup returns *)

Lemma loop_body_Return (t : trie.Trie proxymux.iface)
  (origpath copypath : list string) (ent : proxymux.muxEntry) :
  proxymux.loop_body t origpath copypath = proxymux.Return ent →
  trie.Get t copypath = Some (proxymux.IsMuxEntry ent) ∧
  (proxymux.prefix ent = true ∨ length copypath = length origpath).
Proof.
  unfold proxymux.loop_body.
  destruct (trie.Get t copypath) as [[ent'|repr]|]; [|done|].
  - destruct (length copypath =? length origpath) eqn:Hlen.
    + intros [= ->]. apply Nat.eqb_eq in Hlen. auto.
    + destruct (proxymux.prefix ent') eqn:Hpre.
      * intros [= ->]. auto.
      * by destruct (0 <? length copypath).
  - by destruct (0 <? length copypath).
Qed.

(** A hit comes from an entry stored at the examined prefix. *)
Lemma for_loop_hit (t : trie.Trie proxymux.iface) (origpath : list string)
  (n : nat) (ent : proxymux.muxEntry) :
  n ≤ length origpath →
  proxymux.for_loop t origpath (take n origpath) = (ent, true) →
  ∃ j, j ≤ n ∧
       trie.Get t (take j origpath) = Some (proxymux.IsMuxEntry ent) ∧
       (proxymux.prefix ent = true ∨ j = length origpath).
Proof.
  induction n as [|n IH]; intros Hn; rewrite for_loop_step.
  - destruct (proxymux.loop_body t origpath (take 0 origpath))
      as [copypath| |ent'] eqn:Hb; [|done|].
    + apply loop_body_Continue in Hb as [_ Hb]. simpl in Hb. lia.
    + intros [= ->]. apply loop_body_Return in Hb as [Hget Hacc].
      exists 0. split_and!; [done|done|].
      destruct Hacc as [?|Hlen]; [by left|right]. by rewrite <- Hlen.
  - destruct (proxymux.loop_body t origpath (take (S n) origpath))
      as [copypath| |ent'] eqn:Hb; [|done|].
    + apply loop_body_Continue in Hb as [-> _].
      rewrite chop_take by done. replace (S n - 1) with n by lia.
      intros Hloop. destruct (IH ltac:(lia) Hloop) as (j & Hj & Hget & Hacc).
      exists j. split_and!; [lia|done..].
    + intros [= ->]. apply loop_body_Return in Hb as [Hget Hacc].
      exists (S n). split_and!; [done|done|].
      destruct Hacc as [?|Hlen]; [by left|right].
      by rewrite length_take_le in Hlen.
Qed.

(** A miss passes over every examined prefix, unless a value that is not a
    mux entry stops the search. *)
Lemma for_loop_miss_passed_over (t : trie.Trie proxymux.iface)
  (origpath : list string) (n : nat) :
  n ≤ length origpath →
  (∀ j repr, j ≤ n →
     trie.Get t (take j origpath) ≠ Some (proxymux.NotMuxEntry repr)) →
  (proxymux.for_loop t origpath (take n origpath)).2 = false →
  ∀ j, j ≤ n → passed_over t origpath j.
Proof.
  induction n as [|n IH]; intros Hn Hmux; rewrite for_loop_step.
  - destruct (proxymux.loop_body t origpath (take 0 origpath))
      as [copypath| |ent'] eqn:Hb; [|intros _|done].
    + apply loop_body_Continue in Hb as [_ Hb]. simpl in Hb. lia.
    + intros j Hj. replace j with 0 by lia.
      revert Hb. unfold proxymux.loop_body, passed_over.
      specialize (Hmux 0). change (take 0 origpath) with (@nil string) in *.
      destruct (trie.Get t []) as [[ent|repr]|] eqn:Hget;
        [|by destruct (Hmux repr (le_n _))|by left].
      destruct origpath as [|seg origpath]; [done|]. cbn [length Nat.eqb].
      destruct (proxymux.prefix ent) eqn:Hpre; [done|].
      intros _. right. by exists ent.
  - destruct (proxymux.loop_body t origpath (take (S n) origpath))
      as [copypath| |ent'] eqn:Hb; [| |done].
    + pose proof Hb as Hb'. apply loop_body_Continue in Hb' as [-> _].
      rewrite chop_take in * by done. replace (S n - 1) with n in * by lia.
      intros Hloop j Hj.
      destruct (decide (j = S n)) as [->|Hne].
      * revert Hb. unfold proxymux.loop_body, passed_over.
        rewrite length_take_le by done.
        destruct (trie.Get t (take (S n) origpath)) as [[ent|repr]|];
          [|done|by left].
        destruct (S n =? length origpath) eqn:Hlen; [done|].
        destruct (proxymux.prefix ent) eqn:Hpre; [done|].
        intros _. right. exists ent. split_and!; [done..|].
        by apply Nat.eqb_neq.
      * apply IH; [lia| |done|lia]. intros j' repr Hj'. apply Hmux. lia.
    + intros _. exfalso. revert Hb. unfold proxymux.loop_body.
      rewrite length_take_le by done.
      destruct (trie.Get t (take (S n) origpath)) as [[ent|repr]|] eqn:Hget.
      * destruct (S n =? length origpath); [done|].
        by destruct (proxymux.prefix ent).
      * by destruct (Hmux (S n) repr ltac:(lia)).
      * done.
Qed.

(** X4 (a hit is a stored route): when [findlongestmatch] reports a match,
    the entry it returns is stored in the trie at the request path or at an
    ancestor of it, and an entry taken from a proper ancestor is a prefix
    route: an exact route never serves another path than its own. *)
Theorem findlongestmatch_hit (t : trie.Trie proxymux.iface) (R : string)
  (ent : proxymux.muxEntry) :
  proxymux.findlongestmatch t R = (ent, true) →
  ∃ key, key `prefix_of` proxymux.splitpath R ∧
         trie.Get t key = Some (proxymux.IsMuxEntry ent) ∧
         (proxymux.prefix ent = true ∨ key = proxymux.splitpath R).
Proof.
  unfold proxymux.findlongestmatch. set (S := proxymux.splitpath R).
  rewrite <- (take_ge S (length S)) at 2 by done.
  intros Hloop. apply for_loop_hit in Hloop as (j & Hj & Hget & Hacc); [|done].
  exists (take j S). split_and!; [apply prefix_take|done|].
  destruct Hacc as [?| ->]; [by left|right]. by rewrite take_ge.
Qed.

Lemma findlongestmatch_hit_witness :
  ∃ key, key `prefix_of` proxymux.splitpath "/a/b/c" ∧
         trie.Get (proxymux.trie mux_S2) key =
           Some (proxymux.IsMuxEntry
                   {| proxymux.prefix := true; proxymux.backendId := 2 |}) ∧
         (true = true ∨ key = proxymux.splitpath "/a/b/c").
Proof.
  apply (findlongestmatch_hit (proxymux.trie mux_S2) "/a/b/c"
           {| proxymux.prefix := true; proxymux.backendId := 2 |}).
  vm_compute. reflexivity.
Defined.

(** X5 (when a lookup misses): on a trie that holds mux entries above the
    request path, [Lookup] misses exactly when nothing is stored at the
    request path and no ancestor of it holds a prefix route. *)
Theorem Lookup_miss_iff (mux : proxymux.Mux) (R : string) :
  mux_entries_above (proxymux.trie mux) R →
  (proxymux.Lookup mux R).2 = false ↔
  trie.Get (proxymux.trie mux) (proxymux.splitpath R) = None ∧
  ∀ key ent, key `prefix_of` proxymux.splitpath R →
    trie.Get (proxymux.trie mux) key = Some (proxymux.IsMuxEntry ent) →
    proxymux.prefix ent = false.
Proof.
  intros Hmux. unfold proxymux.Lookup, proxymux.findlongestmatch.
  set (t := proxymux.trie mux) in *. set (S := proxymux.splitpath R) in *.
  destruct (proxymux.for_loop t S S) as [entry ok] eqn:Hloop. simpl.
  rewrite <- (take_ge S (length S)) in Hloop at 2 by done.
  split.
  - intros ->.
    assert (∀ j, j ≤ length S → passed_over t S j) as Hpass.
    { apply for_loop_miss_passed_over; [done| |by rewrite Hloop].
      intros j repr _. apply Hmux, prefix_take. }
    split.
    + destruct (Hpass (length S)) as [Hnone|(ent & _ & _ & Hne)]; [done| |done].
      by rewrite take_ge in Hnone.
    + intros key ent Hkey Hget.
      pose proof (prefix_length _ _ Hkey) as Hlen.
      rewrite (prefix_of_take _ _ Hkey) in Hget.
      destruct (Hpass (length key) Hlen) as [Hnone|(ent' & Hget' & Hpre & _)];
        congruence.
  - intros [Hnone Hpre].
    rewrite (for_loop_descend t S 0 (length S)) in Hloop; [|lia|done|].
    + rewrite for_loop_bottom in Hloop; [congruence|].
      unfold passed_over. simpl.
      destruct (trie.Get t []) as [[ent|repr]|] eqn:Hroot; [| |by left].
      * right. exists ent. split_and!; [done| |].
        -- eapply Hpre; [apply prefix_nil|done].
        -- intros Hlen. symmetry in Hlen. apply nil_length_inv in Hlen.
           rewrite Hlen in Hnone. congruence.
      * by destruct (Hmux [] repr (prefix_nil _)).
    + intros j _ Hj. unfold passed_over.
      destruct (trie.Get t (take j S)) as [[ent|repr]|] eqn:Hget; [| |by left].
      * right. exists ent. split_and!; [done| |].
        -- eapply Hpre; [apply prefix_take|done].
        -- intros ->. rewrite take_ge in Hget by done. congruence.
      * by destruct (Hmux (take j S) repr (prefix_take _ _)).
Qed.

(** ** The Mux as its methods build it *)

Lemma apply_MuxOp_mux_entries (mux : proxymux.Mux) (op : MuxOp) :
  (∀ key repr,
     trie.Get (proxymux.trie mux) key ≠ Some (proxymux.NotMuxEntry repr)) →
  ∀ key repr,
    trie.Get (proxymux.trie (apply_MuxOp mux op)) key ≠
    Some (proxymux.NotMuxEntry repr).
Proof.
  intros Hmux key repr. destruct op as [target|path pre id]; simpl; [done|].
  rewrite Get_Set. by case_decide.
Qed.

Lemma Mux_after_mux_entries (ops : list MuxOp) (key : list string)
  (repr : string) :
  trie.Get (proxymux.trie (Mux_after ops)) key ≠
  Some (proxymux.NotMuxEntry repr).
Proof.
  revert key repr. unfold Mux_after.
  induction ops as [|op ops IH] using rev_ind; intros key repr.
  - simpl. by rewrite Get_NewTrie.
  - rewrite foldl_snoc. by apply apply_MuxOp_mux_entries.
Qed.

(** X6 (only mux entries): whatever [AddBackend] and [Register] calls built
    a Mux from a new one, every value stored in its trie is a [muxEntry]; the
    branch of [findlongestmatch] for a value of another type is not taken on
    such a Mux. *)
Theorem Mux_trie_holds_mux_entries (ops : list MuxOp) (key : list string) :
  trie.Get (proxymux.trie (Mux_after ops)) key = None ∨
  ∃ ent, trie.Get (proxymux.trie (Mux_after ops)) key =
           Some (proxymux.IsMuxEntry ent).
Proof.
  pose proof (Mux_after_mux_entries ops key) as Hmux.
  destruct (trie.Get (proxymux.trie (Mux_after ops)) key) as [[ent|repr]|];
    [right; by exists ent| |by left].
  by destruct (Hmux repr).
Qed.

(** ** Routes and the paths they serve *)

(** X7 (routes elsewhere do not matter): registering a route at [P] leaves
    the lookup of every path [R] unchanged unless [P] is [R] or an ancestor
    of [R]. *)
Theorem Register_elsewhere (mux : proxymux.Mux) (P R : string) (pre : bool)
  (id : Z) :
  ¬ proxymux.splitpath P `prefix_of` proxymux.splitpath R →
  proxymux.Lookup (proxymux.Register mux P pre id) R = proxymux.Lookup mux R.
Proof.
  intros Hnot. unfold proxymux.Lookup, proxymux.findlongestmatch. simpl.
  set (Sp := proxymux.splitpath P) in *. set (Sr := proxymux.splitpath R) in *.
  set (v := proxymux.IsMuxEntry _).
  enough (proxymux.for_loop (trie.Set_ (proxymux.trie mux) Sp v) Sr Sr =
          proxymux.for_loop (proxymux.trie mux) Sr Sr) as -> by done.
  rewrite <- (take_ge Sr (length Sr)) at 2 4 by done.
  apply for_loop_ext; [done|]. intros j Hj.
  unfold proxymux.loop_body. rewrite Get_Set_ne; [done|].
  intros Heq. apply Hnot. rewrite Heq. apply prefix_take.
Qed.

Lemma Register_elsewhere_witness :
  proxymux.Lookup (proxymux.Register mux_S2 "/a/bc" true 9) "/a/b/c" =
  proxymux.Lookup mux_S2 "/a/b/c".
Proof.
  apply Register_elsewhere. vm_compute. intros [k Hk]. discriminate Hk.
Defined.

Lemma Get_single (key key' : list string) (v : proxymux.iface) :
  trie.Get (trie.Set_ trie.NewTrie key v) key' =
  if decide (key = key') then Some v else None.
Proof. rewrite Get_Set. case_decide; [done|]. apply Get_NewTrie. Qed.

(** X8 (a prefix route alone): on a Mux with the single route [P], a prefix
    route, a lookup finds it exactly for the paths whose segments start with
    the segments of [P], and misses for all others: [/a/b] serves [/a/b] and
    [/a/b/c], not [/a/bc]. *)
Theorem Lookup_single_prefix_route (P R : string) (id : Z) :
  proxymux.Lookup (proxymux.Register proxymux.NewMux P true id) R =
  if decide (proxymux.splitpath P `prefix_of` proxymux.splitpath R)
  then (id, true) else (0%Z, false).
Proof.
  case_decide as Hpre.
  - unfold proxymux.Lookup, proxymux.findlongestmatch. simpl.
    set (Sp := proxymux.splitpath P) in *.
    set (Sr := proxymux.splitpath R) in *.
    pose proof (prefix_length _ _ Hpre) as Hlen.
    pose proof (prefix_of_take _ _ Hpre) as Htake.
    rewrite <- (take_ge Sr (length Sr)) at 2 by done.
    rewrite (for_loop_descend _ Sr (length Sp) (length Sr)); [|done|done|].
    + rewrite (for_loop_accept _ Sr (length Sp)
                 {| proxymux.prefix := true; proxymux.backendId := id |});
        [done|done| |by left].
      by rewrite <- Htake, Get_single, decide_True.
    + intros j Hj1 Hj2. left. rewrite Get_single.
      rewrite decide_False; [done|]. intros Heq.
      apply (f_equal length) in Heq. rewrite length_take_le in Heq by done. lia.
  - rewrite Register_elsewhere by done. apply Lookup_NewMux.
Qed.

(** X9 (an exact route alone): on a Mux with the single route [P], an exact
    route, a lookup finds it exactly for the paths with the segments of [P],
    and misses for every other path, the descendants of [P] included. *)
Theorem Lookup_single_exact_route (P R : string) (id : Z) :
  proxymux.Lookup (proxymux.Register proxymux.NewMux P false id) R =
  if decide (proxymux.splitpath R = proxymux.splitpath P)
  then (id, true) else (0%Z, false).
Proof.
  case_decide as Heq; [by apply Lookup_Register_same|].
  set (mux := proxymux.Register proxymux.NewMux P false id).
  assert ((proxymux.Lookup mux R).2 = false) as Hmiss.
  { apply Lookup_miss_iff.
    - intros key repr _. subst mux. simpl. rewrite Get_single.
      by case_decide.
    - subst mux. simpl. split.
      + rewrite Get_single. by rewrite decide_False.
      + intros key ent _. rewrite Get_single. case_decide; [|done].
        by intros [= <-]. }
  revert Hmiss. unfold proxymux.Lookup, proxymux.findlongestmatch.
  destruct (proxymux.for_loop _ _ _) as [entry ok] eqn:Hloop. simpl.
  intros ->. pose proof (for_loop_miss _ _ _ (f_equal snd Hloop)) as Hzero.
  rewrite Hloop in Hzero. by injection Hzero as ->.
Qed.

(** X10 (the root catch-all): on a Mux built by its methods, once a prefix
    route is registered at the root, no lookup misses. *)
Theorem root_prefix_route_catches_all (ops : list MuxOp) (ent : proxymux.muxEntry)
  (R : string) :
  trie.Get (proxymux.trie (Mux_after ops)) [] = Some (proxymux.IsMuxEntry ent) →
  proxymux.prefix ent = true →
  (proxymux.Lookup (Mux_after ops) R).2 = true.
Proof.
  intros Hroot Hpre.
  destruct ((proxymux.Lookup (Mux_after ops) R).2) eqn:Hmiss; [done|].
  apply Lookup_miss_iff in Hmiss as [_ Hnone].
  - rewrite (Hnone [] ent (prefix_nil _) Hroot) in Hpre. done.
  - intros key repr _. apply Mux_after_mux_entries.
Qed.

Lemma root_prefix_route_catches_all_witness :
  (proxymux.Lookup (Mux_after [OpRegister "/" true 3]) "/any/path").2 = true.
Proof.
  apply (root_prefix_route_catches_all [OpRegister "/" true 3]
           {| proxymux.prefix := true; proxymux.backendId := 3 |}).
  - vm_compute. reflexivity.
  - reflexivity.
Defined.

Lemma Lookup_miss_iff_witness :
  (proxymux.Lookup mux_S2 "/b").2 = false ↔
  trie.Get (proxymux.trie mux_S2) (proxymux.splitpath "/b") = None ∧
  ∀ key ent, key `prefix_of` proxymux.splitpath "/b" →
    trie.Get (proxymux.trie mux_S2) key = Some (proxymux.IsMuxEntry ent) →
    proxymux.prefix ent = false.
Proof.
  apply (Lookup_miss_iff mux_S2 "/b").
  intros key repr _.
  apply (Mux_after_mux_entries [OpRegister "/a" true 1; OpRegister "/a/b" true 2]).
Defined.

(** ** Registering twice *)

Section trie_set_twice.

Context {V : Type}.
Implicit Types (t : trie.Trie V) (key : list string) (v : V).

Lemma Set_Set_eq t key v v' :
  trie.Set_ (trie.Set_ t key v) key v' = trie.Set_ t key v'.
Proof.
  revert t. induction key as [|seg rest IH]; intros t; [done|].
  cbn [trie.Set_ trie.children trie.value].
  rewrite lookup_insert_eq, insert_insert_eq. simpl. by rewrite IH.
Qed.

Lemma Set_Set_ne t key key' v v' :
  key ≠ key' →
  trie.Set_ (trie.Set_ t key v) key' v' = trie.Set_ (trie.Set_ t key' v') key v.
Proof.
  revert t key'. induction key as [|seg rest IH]; intros t key' Hne.
  - destruct key' as [|seg' rest']; [done|]. reflexivity.
  - destruct key' as [|seg' rest']; [reflexivity|].
    cbn [trie.Set_ trie.children trie.value].
    destruct (decide (seg = seg')) as [<-|Hseg].
    + rewrite !lookup_insert_eq, !insert_insert_eq. simpl.
      rewrite IH by congruence. done.
    + rewrite !lookup_insert_ne by done.
      by rewrite insert_insert_ne.
Qed.

End trie_set_twice.

(** X11 (the last registration wins): registering a route at a path that
    already has one, under any spelling of the path, leaves the Mux as the
    second registration alone would: the first route is gone, prefix flag
    and backend id alike. *)
Theorem Register_overwrites (mux : proxymux.Mux) (P P' : string)
  (pre pre' : bool) (id id' : Z) :
  proxymux.splitpath P = proxymux.splitpath P' →
  proxymux.Register (proxymux.Register mux P pre id) P' pre' id' =
  proxymux.Register mux P' pre' id'.
Proof.
  intros HP. unfold proxymux.Register. simpl. f_equal.
  rewrite HP. apply Set_Set_eq.
Qed.

Lemma Register_overwrites_witness :
  proxymux.Register (proxymux.Register proxymux.NewMux "/foo" true 1)
    "foo" false 2 =
  proxymux.Register proxymux.NewMux "foo" false 2.
Proof. apply Register_overwrites. reflexivity. Defined.

(** X12 (the order of registrations): two routes at paths with different
    segment sequences can be registered in either order, with the same Mux
    as result. *)
Theorem Register_commutes (mux : proxymux.Mux) (P P' : string)
  (pre pre' : bool) (id id' : Z) :
  proxymux.splitpath P ≠ proxymux.splitpath P' →
  proxymux.Register (proxymux.Register mux P pre id) P' pre' id' =
  proxymux.Register (proxymux.Register mux P' pre' id') P pre id.
Proof.
  intros HP. unfold proxymux.Register. simpl. f_equal.
  by apply Set_Set_ne.
Qed.

Lemma Register_commutes_witness :
  proxymux.Register (proxymux.Register proxymux.NewMux "/a" true 1)
    "/a/b" false 2 =
  proxymux.Register (proxymux.Register proxymux.NewMux "/a/b" false 2)
    "/a" true 1.
Proof. apply Register_commutes. vm_compute. discriminate. Defined.

(** ** The backend table *)

Lemma int_wrap_small (z : Z) :
  (- 2 ^ 63 ≤ z < 2 ^ 63)%Z → int_wrap z = z.
Proof. intros Hz. unfold int_wrap. rewrite Z.mod_small; lia. Qed.

Lemma AddBackends_cons (mux : proxymux.Mux) (target : URL) (rest : list URL) :
  AddBackends mux (target :: rest) =
  ((AddBackends (proxymux.AddBackend mux target).1 rest).1,
   proxymux.nextBackendId mux
     :: (AddBackends (proxymux.AddBackend mux target).1 rest).2).
Proof.
  cbn [AddBackends proxymux.AddBackend fst].
  by destruct (AddBackends _ rest).
Qed.

Lemma AddBackends_from (targets : list URL) (mux : proxymux.Mux) :
  (0 ≤ proxymux.nextBackendId mux)%Z →
  (proxymux.nextBackendId mux + Z.of_nat (length targets) < 2 ^ 63)%Z →
  (AddBackends mux targets).2 =
    (λ i, (proxymux.nextBackendId mux + Z.of_nat i)%Z)
      <$> seq 0 (length targets) ∧
  proxymux.trie (AddBackends mux targets).1 = proxymux.trie mux ∧
  (∀ id, (id < proxymux.nextBackendId mux)%Z →
     proxymux.backends (AddBackends mux targets).1 !! id =
     proxymux.backends mux !! id) ∧
  (∀ i target, targets !! i = Some target →
     proxymux.backends (AddBackends mux targets).1
       !! (proxymux.nextBackendId mux + Z.of_nat i)%Z =
     Some (NewSingleHostReverseProxy target)).
Proof.
  revert mux. induction targets as [|target rest IH]; intros mux Hpos Hmax.
  - split_and!; [done..|]. intros i target' Hi. done.
  - rewrite AddBackends_cons. cbn [length] in Hmax.
    set (mux' := (proxymux.AddBackend mux target).1).
    assert (proxymux.nextBackendId mux' = (proxymux.nextBackendId mux + 1)%Z)
      as Hnext.
    { subst mux'. cbn [proxymux.AddBackend fst proxymux.nextBackendId].
      apply int_wrap_small. lia. }
    assert (proxymux.backends mux' =
            <[proxymux.nextBackendId mux := NewSingleHostReverseProxy target]>
              (proxymux.backends mux)) as Hback by done.
    destruct (IH mux') as (Hids & Htrie & Hold & Hnew); [lia|lia|].
    cbn [fst snd]. split_and!.
    + rewrite Hids, Hnext. cbn [length seq]. rewrite fmap_cons, Z.add_0_r.
      f_equal. rewrite <- (fmap_S_seq 0), <- list_fmap_compose.
      apply list_fmap_ext. intros _ i _. simpl. lia.
    + by rewrite Htrie.
    + intros id Hid. rewrite Hold, Hback by lia.
      rewrite lookup_insert_ne; [done|lia].
    + intros [|i] target' Hi.
      * injection Hi as <-. rewrite Z.add_0_r, Hold, Hback by lia.
        by rewrite lookup_insert_eq.
      * rewrite <- (Hnew i target' Hi). f_equal. rewrite Hnext. lia.
Qed.

(** X13 (backend ids): on a new Mux, as long as fewer than 2^63 backends are
    added, the calls of [AddBackend] return the ids 0, 1, 2, ... in order,
    and [GetBackend] of the i-th id gives the proxy of the i-th target. *)
Theorem AddBackend_ids_count_from_zero (targets : list URL) :
  (Z.of_nat (length targets) < 2 ^ 63)%Z →
  (AddBackends proxymux.NewMux targets).2 =
    Z.of_nat <$> seq 0 (length targets) ∧
  ∀ i target, targets !! i = Some target →
    proxymux.GetBackend (AddBackends proxymux.NewMux targets).1 (Z.of_nat i) =
    Some (NewSingleHostReverseProxy target).
Proof.
  intros Hlen.
  destruct (AddBackends_from targets proxymux.NewMux) as (Hids & _ & _ & Hnew);
    [done|simpl; lia|].
  split; [done|].
  intros i target Hi. unfold proxymux.GetBackend.
  specialize (Hnew i target Hi).
  change (proxymux.nextBackendId proxymux.NewMux + Z.of_nat i)%Z
    with (Z.of_nat i) in Hnew.
  by rewrite Hnew.
Qed.

Lemma AddBackend_ids_count_from_zero_witness :
  (AddBackends proxymux.NewMux [ {| raw := "http://a" |}; {| raw := "http://b" |} ]).2
  = [0%Z; 1%Z].
Proof.
  apply (AddBackend_ids_count_from_zero
           [ {| raw := "http://a" |}; {| raw := "http://b" |} ]).
  simpl. lia.
Defined.

(** ** Serving a request *)

(** X14 (a request reaches its backend): after a backend is added and a
    route registered for the id [AddBackend] returned, a request for the
    path of the route, under any spelling, is handed to the proxy of that
    backend. *)
Theorem ServeHTTP_registered_backend (mux : proxymux.Mux) (target : URL)
  (P : string) (pre : bool) (r : Request) :
  proxymux.splitpath (URL_Path r) = proxymux.splitpath P →
  let '(mux', id) := proxymux.AddBackend mux target in
  proxymux.ServeHTTP (proxymux.Register mux' P pre id) r =
  ProxyServeHTTP (NewSingleHostReverseProxy target) r.
Proof.
  intros HP. cbn [proxymux.AddBackend]. unfold proxymux.ServeHTTP.
  rewrite Lookup_Register_same by done. simpl.
  unfold proxymux.GetBackend. simpl. by rewrite lookup_insert_eq.
Qed.

Lemma ServeHTTP_registered_backend_witness :
  let '(mux', id) := proxymux.AddBackend proxymux.NewMux {| raw := "http://a" |} in
  proxymux.ServeHTTP (proxymux.Register mux' "/a" false id) {| URL_Path := "a" |} =
  ProxyServeHTTP (NewSingleHostReverseProxy {| raw := "http://a" |})
    {| URL_Path := "a" |}.
Proof.
  apply (ServeHTTP_registered_backend proxymux.NewMux {| raw := "http://a" |}
           "/a" false {| URL_Path := "a" |}).
  reflexivity.
Defined.

(** X15 (a route to a missing backend): [Register] accepts an id for which
    the Mux has no backend, and a request for such a route is answered with
    the 404 page, like a request without route. *)
Theorem ServeHTTP_missing_backend (mux : proxymux.Mux) (P : string)
  (pre : bool) (id : Z) (r : Request) :
  proxymux.GetBackend mux id = None →
  proxymux.splitpath (URL_Path r) = proxymux.splitpath P →
  proxymux.Lookup (proxymux.Register mux P pre id) (URL_Path r) = (id, true) ∧
  proxymux.ServeHTTP (proxymux.Register mux P pre id) r = NotFound r.
Proof.
  intros Hnone HP. split; [by apply Lookup_Register_same|].
  unfold proxymux.ServeHTTP. rewrite Lookup_Register_same by done. simpl.
  revert Hnone. unfold proxymux.GetBackend. simpl.
  by destruct (proxymux.backends mux !! id).
Qed.

Lemma ServeHTTP_missing_backend_witness :
  proxymux.Lookup (proxymux.Register proxymux.NewMux "/a" true 5) "/a" =
    (5%Z, true) ∧
  proxymux.ServeHTTP (proxymux.Register proxymux.NewMux "/a" true 5)
    {| URL_Path := "/a" |} = NotFound {| URL_Path := "/a" |}.
Proof.
  apply (ServeHTTP_missing_backend proxymux.NewMux "/a" true 5
           {| URL_Path := "/a" |}); reflexivity.
Defined.

(** ** More on reloads *)

Section reload_more.

Context {M S : Type} `{!TrieMux M} `{!Storage S}.
Variable parse_error : string → option error.

Implicit Types (w : World (M:=M) (S:=S)).

(** X16 (a reload never panics): [ReloadRoutes] returns normally in every
    case; the terminal errors are recovered inside it, and its caller is not
    told of them. *)
Theorem ReloadRoutes_returns w :
  (ReloadRoutes parse_error w).2 = inl tt.
Proof.
  rewrite ReloadRoutes_unfold.
  destruct (Open (stor (rt w))) as [s1 [err|]]; [done|].
  destruct (Applications s1) as [iterA|errA]; [|done].
  destruct (Err iterA); [done|].
  destruct (Routes s1) as [iterR|errR]; [|done].
  by destruct (Err iterR).
Qed.

(** X17 (the storage is closed when it was opened): after [ReloadRoutes],
    whether the reload succeeded or met an error, the storage is the one
    [Open] left, closed once if [Open] succeeded and not closed if [Open]
    failed. *)
Theorem ReloadRoutes_closes_storage w :
  stor (rt (ReloadRoutes parse_error w).1) =
  match Open (stor (rt w)) with
  | (s1, None) => Close s1
  | (s1, Some _) => s1
  end.
Proof.
  rewrite ReloadRoutes_unfold.
  destruct (Open (stor (rt w))) as [s1 [err|]]; [done|].
  destruct (Applications s1) as [iterA|errA]; [|done].
  destruct (Err iterA); [done|].
  destruct (Routes s1) as [iterR|errR]; [|done].
  by destruct (Err iterR).
Qed.

(** X18 (a reload builds aside): whether it succeeds or fails,
    [ReloadRoutes] changes no Mux that existed before it, the one in service
    included, and allocates at most one new Mux. *)
Theorem ReloadRoutes_keeps_old_muxes w :
  heap w `prefix_of` heap (ReloadRoutes parse_error w).1 ∧
  length (heap (ReloadRoutes parse_error w).1) ≤ length (heap w) + 1.
Proof.
  rewrite ReloadRoutes_unfold.
  assert (∀ m : M, heap w `prefix_of` heap w ++ [m] ∧
                   length (heap w ++ [m]) ≤ length (heap w) + 1)
    as Happ.
  { intros m. split; [by apply prefix_app_r|]. rewrite length_app. simpl. lia. }
  destruct (Open (stor (rt w))) as [s1 [err|]]; [simpl; split; [done|lia]|].
  destruct (Applications s1) as [iterA|errA]; [|apply Happ].
  destruct (Err iterA); [apply Happ|].
  destruct (Routes s1) as [iterR|errR]; [|apply Happ].
  destruct (Err iterR); apply Happ.
Qed.

(** X19 (when the active Mux changes): for a router whose [mux] field is a
    valid address, [ReloadRoutes] makes the field point to the new Mux when
    the reload meets no terminal error, and leaves it as it was when it
    meets one. *)
Theorem ReloadRoutes_publishes_iff w :
  mux (rt w) < length (heap w) →
  (mux (rt (ReloadRoutes parse_error w).1) = length (heap w) ↔
   ¬ terminal_error (stor (rt w))) ∧
  (mux (rt (ReloadRoutes parse_error w).1) = mux (rt w) ↔
   terminal_error (stor (rt w))).
Proof.
  intros Hvalid. rewrite ReloadRoutes_unfold. unfold terminal_error.
  assert (∀ T : Prop, T →
            (mux (rt w) = length (heap w) ↔ ¬ T) ∧
            (mux (rt w) = mux (rt w) ↔ T)) as Hfailed.
  { intros T HT. split; split; [lia|tauto|done|done]. }
  destruct (Open (stor (rt w))) as [s1 [err|]]; simpl.
  { apply Hfailed. by left. }
  destruct (Applications s1) as [iterA|errA]; simpl.
  2: { apply Hfailed. right; left. eauto. }
  destruct (Err iterA) as [errA|] eqn:HerrA; simpl.
  { apply Hfailed. right; right; left. eauto. }
  destruct (Routes s1) as [iterR|errR]; simpl.
  2: { apply Hfailed. do 3 right; left. eauto. }
  destruct (Err iterR) as [errR|] eqn:HerrR; simpl.
  { apply Hfailed. do 4 right. eauto. }
  match goal with |- (_ ↔ ¬ ?T) ∧ _ => assert (¬ T) as Hnone end.
  { intros [?|[[e He]|[(iter & e & Hi & He)|[[e He]|(iter & e & Hi & He)]]]].
    - done.
    - discriminate He.
    - injection Hi as <-. congruence.
    - discriminate He.
    - injection Hi as <-. congruence. }
  split; split; [done|done|lia|tauto].
Qed.

Lemma foldl_loadApplications_unparsed (apps : gmap string Handler)
  (l : list Application) (id : string) :
  (∀ app, app ∈ l → ApplicationId app = id →
          is_Some (parse_error (BackendURL app))) →
  foldl (loadApplications_body parse_error) apps l !! id = apps !! id.
Proof.
  revert apps. induction l as [|app l IH]; intros apps Hbad; [done|].
  simpl. rewrite IH by (intros; apply Hbad; [by right|done]).
  unfold loadApplications_body, Parse.
  destruct (parse_error (BackendURL app)) as [err|] eqn:Hparse; [done|].
  rewrite lookup_insert_ne; [done|]. intros Hid.
  destruct (Hbad app ltac:(by left) Hid) as [err Herr]. congruence.
Qed.

(** X20 (two records for one application): when several records of the
    applications stream carry the same identifier, the handler kept for it
    is that of the last record whose URL parses; a later record with a
    malformed URL does not remove it. *)
Theorem loadApplications_last_parsed_wins w (stor : S)
  (iter : Iterator Application) (before after : list Application)
  (app : Application) :
  Applications stor = inl iter → Err iter = None →
  pending iter = before ++ app :: after →
  parse_error (BackendURL app) = None →
  (∀ app', app' ∈ after → ApplicationId app' = ApplicationId app →
           is_Some (parse_error (BackendURL app'))) →
  ∃ apps, loadApplications parse_error stor w = (w, inl apps) ∧
          apps !! ApplicationId app =
          Some (NewSingleHostReverseProxy {| raw := BackendURL app |}).
Proof.
  intros Happs Herr Hpending Hparse Hafter.
  eexists. split; [by apply loadApplications_ok|].
  rewrite Hpending, foldl_app. simpl.
  rewrite foldl_loadApplications_unparsed by done.
  unfold loadApplications_body at 1, Parse. rewrite Hparse.
  by rewrite lookup_insert_eq.
Qed.

End reload_more.

Lemma ReloadRoutes_publishes_iff_witness :
  mux (rt (ReloadRoutes missing_scheme (world_new storage_S6)).1) =
    mux (rt (world_new storage_S6)) ↔
  terminal_error (stor (rt (world_new storage_S6))).
Proof.
  apply (ReloadRoutes_publishes_iff missing_scheme (world_new storage_S6)).
  simpl. lia.
Defined.

Lemma loadApplications_last_parsed_wins_witness :
  ∃ apps,
    loadApplications missing_scheme storage_duplicates (world_new storage_S2) =
      (world_new storage_S2, inl apps) ∧
    apps !! "A" = Some (NewSingleHostReverseProxy {| raw := "http://new" |}).
Proof.
  apply (loadApplications_last_parsed_wins missing_scheme (world_new storage_S2)
           storage_duplicates
           {| pending := records_duplicates; failure := None |}
           [ {| ApplicationId := "A"; BackendURL := "http://old" |} ]
           [ {| ApplicationId := "A"; BackendURL := "://bad" |} ]
           {| ApplicationId := "A"; BackendURL := "http://new" |}).
  - reflexivity.
  - reflexivity.
  - reflexivity.
  - reflexivity.
  - intros app' Hin _. apply list_elem_of_singleton in Hin. subst app'.
    vm_compute. eauto.
Defined.

(** ** The storage on MongoDB *)

Section mongo_facts.

Context {Session Database : Type}.
Variable Dial : string → Session + error.
Variable SetMode_Monotonic : Session → Session.
Variable DB : Session → string → Database.
Variable Find_Iter : ∀ A : Type, Database → string → Iterator A.

#[local] Abbreviation Open := (mongo.Open Dial SetMode_Monotonic DB).
#[local] Abbreviation Applications := (mongo.Applications Find_Iter).
#[local] Abbreviation Routes := (mongo.Routes Find_Iter).

(** X21 (the life of a connection): when the server can be dialed, [Open]
    reports no error, and then [Applications] and [Routes] give the
    iterators of the collections [applications] and [routes] of the database
    named by the storage, without error; after [Close] both report that the
    storage is not connected, as they do on a new storage. *)
Theorem MongoStorage_open_read_close (m : mongo.MongoStorage) (s : Session) :
  Dial (mongo.mongoUrl m) = inl s →
  let d := DB (SetMode_Monotonic s) (mongo.mongoDbName m) in
  (Open m).2 = None ∧
  Applications (Open m).1 = inl (Find_Iter Application d "applications") ∧
  Routes (Open m).1 = inl (Find_Iter Route d "routes") ∧
  ∃ m', mongo.Close (Open m).1 = Some m' ∧
        Applications m' = inr "Not connected to mongo" ∧
        Routes m' = inr "Not connected to mongo" ∧
        m' = mongo.NewMongoStorage (mongo.mongoUrl m) (mongo.mongoDbName m).
Proof.
  intros Hdial d. unfold mongo.Open. rewrite Hdial. simpl.
  split_and!; [done..|]. eexists. split_and!; reflexivity.
Qed.

(** X22 (a failed connection): when the server cannot be dialed, [Open]
    returns the error of the driver and the storage answers as before: a
    storage that was not connected still reports so from [Applications] and
    [Routes]. *)
Theorem MongoStorage_open_fails (m : mongo.MongoStorage) (err : error) :
  Dial (mongo.mongoUrl m) = inr err →
  (Open m).2 = Some err ∧
  Applications (Open m).1 = Applications m ∧
  Routes (Open m).1 = Routes m ∧
  (mongo.db m = None →
     Applications (Open m).1 = inr "Not connected to mongo" ∧
     Routes (Open m).1 = inr "Not connected to mongo").
Proof.
  intros Hdial. unfold mongo.Open. rewrite Hdial. simpl.
  split_and!; [done..|]. intros Hdb.
  unfold mongo.Applications, mongo.Routes. simpl. by rewrite Hdb.
Qed.

End mongo_facts.

Lemma MongoStorage_open_read_close_witness :
  (mongo.Open Dial_example id pair
     (mongo.NewMongoStorage "mongodb://localhost" "router")).2 = None.
Proof.
  apply (MongoStorage_open_read_close Dial_example id pair Find_Iter_example
           (mongo.NewMongoStorage "mongodb://localhost" "router")
           "mongodb://localhost").
  reflexivity.
Defined.

Lemma MongoStorage_open_fails_witness :
  (mongo.Open Dial_example id pair
     (mongo.NewMongoStorage "mongodb://down" "router")).2 =
  Some "no reachable servers".
Proof.
  apply (MongoStorage_open_fails Dial_example id pair Find_Iter_example
           (mongo.NewMongoStorage "mongodb://down" "router")
           "no reachable servers").
  reflexivity.
Defined.
